(** * Shallow embedding of partfs: disks, the borrow registry, MBR and FAT

    Machine integers ([usize], [u8], [u16], [u32]) are modelled as [Z].
    A byte is a [Z] in [0, 256).  Every fallible operation returns a
    [res]: [ROk] for [Ok], [RErr] for [Err], and [RPanic] for the cases
    where the Rust code panics (slice index out of bounds, division by
    zero, [unwrap] on [None]). *)

From Stdlib Require Import ZArith List Bool Lia Permutation Sorting.
Import ListNotations.
Open Scope Z_scope.

(* ------------------------------------------------------------------ *)
(** ** lib.rs: permissions, sector sizes, errors *)

Record Permissions := mkPermissions { read : bool; write : bool }.

Definition read_only : Permissions := mkPermissions true false.
Definition write_only : Permissions := mkPermissions false true.
Definition read_write : Permissions := mkPermissions true true.

Inductive SectorSize :=
| Any
| AllOf (l : list Z)
| AnyExcept (l : list Z)
| InRanges (rs : list (Z * Z))
| AnyExceptRanges (rs : list (Z * Z)).

Inductive DiskErr :=
| InvalidSectorSize (found : Z) (supported : SectorSize) (start : Z)
| InvalidSectorIndex (found : Z) (max : Z)
| InvalidPermission (disk_permissions : Permissions)
| UnreachableDisk
| InvalidDiskSize
| Busy
| IOErr
| UnsupportedDiskSectorSize
| InvalidPartitionIndex
| SpaceAlreadyInUse
| IndexOutOfRange
| OutOfRangeValue.

Inductive res (A : Type) :=
| ROk (a : A)
| RErr (e : DiskErr)
| RPanic.
Arguments ROk {A} a.
Arguments RErr {A} e.
Arguments RPanic {A}.

Definition bind {A B} (m : res A) (k : A -> res B) : res B :=
  match m with
  | ROk a => k a
  | RErr e => RErr e
  | RPanic => RPanic
  end.

Notation "x <- m ;; k" := (bind m (fun x => k))
  (at level 61, m at next level, right associativity).

Definition zmem (x : Z) (l : list Z) : bool := existsb (Z.eqb x) l.

Definition in_range (s : Z) (r : Z * Z) : bool :=
  (fst r <=? s) && (s <? snd r).

(** [SectorSize::is_supported] *)
Definition is_supported (ss : SectorSize) (sector_size disk_size : Z) : bool :=
  (match ss with
   | Any => true
   | AllOf l => zmem sector_size l
   | AnyExcept l => negb (zmem sector_size l)
   | InRanges rs => existsb (in_range sector_size) rs
   | AnyExceptRanges rs => negb (existsb (in_range sector_size) rs)
   end) && (sector_size <=? disk_size).

(** [SectorSize::minimal_ge], [AllOf] arm: a scan with an early exit. *)
Fixpoint minimal_ge_allof (l : list Z) (sector_size : Z) (min : option Z)
  : option Z :=
  match l with
  | [] => min
  | i :: l' =>
      if i =? sector_size then Some sector_size
      else
        let min' :=
          if (i >? sector_size) &&
             (match min with None => true | Some m => i <? m end)
          then Some i else min in
        minimal_ge_allof l' sector_size min'
  end.

Fixpoint insert_sorted (x : Z) (l : list Z) : list Z :=
  match l with
  | [] => [x]
  | y :: l' => if x <=? y then x :: l else y :: insert_sorted x l'
  end.

Definition sort_unstable (l : list Z) : list Z := fold_right insert_sorted [] l.

Fixpoint minimal_ge_anyexcept (v : list Z) (min : Z) : Z :=
  match v with
  | [] => min
  | i :: v' =>
      if i =? min then minimal_ge_anyexcept v' (min + 1)
      else if i >? min then min
      else minimal_ge_anyexcept v' min
  end.

Definition minimal_ge_inranges (rs : list (Z * Z)) (sector_size : Z) : option Z :=
  fold_left
    (fun min r =>
       let '(start, end_) := r in
       if end_ <=? sector_size then min
       else
         let v := if sector_size <? start then start else sector_size in
         match min with
         | Some m => if v <? m then Some v else min
         | None => Some v
         end)
    rs None.

(** One pass of the [AnyExceptRanges] loop body: [Some bump_to] when
    [min] is inside a range, [None] when the loop breaks. *)
Definition anyexceptranges_step (rs : list (Z * Z)) (min : Z) : option Z :=
  let '(inside, bump_to) :=
    fold_left
      (fun acc r =>
         let '(inside, bump_to) := acc in
         if in_range min r then (true, Z.max bump_to (snd r)) else (inside, bump_to))
      rs (false, min + 1) in
  if inside then Some bump_to else None.

(** The loop leaves a range behind at every iteration, so
    [length rs + 1] iterations reach the [break]. *)
Fixpoint anyexceptranges_loop (fuel : nat) (rs : list (Z * Z)) (min : Z) : option Z :=
  match fuel with
  | O => None
  | S f =>
      match anyexceptranges_step rs min with
      | Some m => anyexceptranges_loop f rs m
      | None => Some min
      end
  end.

Definition minimal_ge (ss : SectorSize) (sector_size : Z) : option Z :=
  match ss with
  | Any => Some sector_size
  | AllOf l => minimal_ge_allof l sector_size None
  | AnyExcept l => Some (minimal_ge_anyexcept (sort_unstable l) sector_size)
  | InRanges rs => minimal_ge_inranges rs sector_size
  | AnyExceptRanges rs => anyexceptranges_loop (S (length rs)) rs sector_size
  end.

Record DiskInfos := mkDiskInfos {
  di_sector_size : SectorSize;
  di_disk_size : Z;
  di_permissions : Permissions
}.

(* ------------------------------------------------------------------ *)
(** ** memdisk.rs: the in-memory disk

    The content vector is a length and a byte function, so that disks of
    many MiB can be described without building the list. *)

Record MemDisk := mkMemDisk {
  md_sector_size : SectorSize;
  md_permissions : Permissions;
  md_len : Z;
  md_content : Z -> Z
}.

Definition md_disk_infos (d : MemDisk) : DiskInfos :=
  mkDiskInfos (md_sector_size d) (md_len d) (md_permissions d).

(** [content[a..b]] panics when [b > len] (and [a <= b] holds here). *)
Definition md_slice (d : MemDisk) (a len : Z) : list Z :=
  map (fun i => md_content d (a + Z.of_nat i)) (seq 0 (Z.to_nat len)).

(** [MemDisk::read_sector]: [len] is [buf.len()], the result is the
    filled buffer. *)
Definition md_read_sector (d : MemDisk) (sector len : Z) : res (list Z) :=
  if negb (read (md_permissions d)) then
    RErr (InvalidPermission (md_permissions d))
  else if negb (is_supported (md_sector_size d) len (md_len d)) then
    RErr (InvalidSectorSize len (md_sector_size d) 0)
  else if (sector + 1) * len >? md_len d then RPanic
  else ROk (md_slice d (sector * len) len).

Definition md_write_sector (d : MemDisk) (sector : Z) (buf : list Z) : res MemDisk :=
  let len := Z.of_nat (length buf) in
  if negb (write (md_permissions d)) then
    RErr (InvalidPermission (md_permissions d))
  else if negb (is_supported (md_sector_size d) len (md_len d)) then
    RErr (InvalidSectorSize len (md_sector_size d) 0)
  else if (sector + 1) * len >? md_len d then RPanic
  else
    let a := sector * len in
    ROk (mkMemDisk (md_sector_size d) (md_permissions d) (md_len d)
           (fun i => if (a <=? i) && (i <? a + len)
                     then nth (Z.to_nat (i - a)) buf 0
                     else md_content d i)).

(* ------------------------------------------------------------------ *)
(** ** wrappers.rs: the borrow registry and the two kinds of views *)

(** Rust's [/] and [%] on [usize] panic on a zero divisor. *)
Definition rust_div (a b : Z) : res Z := if b =? 0 then RPanic else ROk (a / b).
Definition rust_rem (a b : Z) : res Z := if b =? 0 then RPanic else ROk (a mod b).

(** [usize::is_multiple_of]: [rhs = 0] answers [self == 0]. *)
Definition is_multiple_of (a b : Z) : bool :=
  if b =? 0 then a =? 0 else a mod b =? 0.

Record DiskWrapper := mkDiskWrapper {
  dw_disk : MemDisk;
  r_borrows : list (Z * Z);
  w_borrows : list (Z * Z)
}.

Definition dw_new (d : MemDisk) : DiskWrapper := mkDiskWrapper d [] [].

(** The test performed on each registered interval [i] by
    [is_r_borrowed], [is_w_borrowed] and [fragmented_subdisk]. *)
Definition borrow_hit (start end_ : Z) (i : Z * Z) : bool :=
  ((fst i <=? start) && (start <? snd i)) || ((fst i <? end_) && (end_ <=? snd i)).

Definition is_r_borrowed (w : DiskWrapper) (start end_ : Z) : bool :=
  existsb (borrow_hit start end_) (r_borrows w).

Definition is_w_borrowed (w : DiskWrapper) (start end_ : Z) : bool :=
  existsb (borrow_hit start end_) (w_borrows w).

Definition dw_disk_infos (w : DiskWrapper) : DiskInfos := md_disk_infos (dw_disk w).

Record SubDisk := mkSubDisk {
  sd_start : Z;
  sd_end : Z;
  sd_sector_size : SectorSize;
  sd_permissions : Permissions
}.

Record FragmentedSubDisk := mkFragmentedSubDisk {
  fs_parts : list (Z * Z);
  fs_size : Z;
  fs_sector_size : SectorSize;
  fs_permissions : Permissions
}.

(** [DiskWrapper::subdisk]: the view and the registry after the pushes. *)
Definition subdisk (w : DiskWrapper) (start end_ : Z) (permissions : Permissions)
  : res (SubDisk * DiskWrapper) :=
  if is_w_borrowed w start end_ || (is_r_borrowed w start end_ && write permissions)
  then RErr Busy
  else if end_ >? di_disk_size (dw_disk_infos w) then RErr InvalidDiskSize
  else
    let r := if read permissions then r_borrows w ++ [(start, end_)] else r_borrows w in
    let wb := if write permissions then w_borrows w ++ [(start, end_)] else w_borrows w in
    let sector_size := di_sector_size (dw_disk_infos w) in
    ROk (mkSubDisk start end_ sector_size permissions, mkDiskWrapper (dw_disk w) r wb).

(** The per-part loop of [DiskWrapper::fragmented_subdisk]; returns the
    accumulated [size]. *)
Fixpoint frag_parts_check (r_b w_b : list (Z * Z)) (permissions : Permissions)
    (disk_size : Z) (parts : list (Z * Z)) (size : Z) : res Z :=
  match parts with
  | [] => ROk size
  | (start, end_) :: rest =>
      if (start >? end_) || (end_ >? disk_size) then RErr InvalidDiskSize
      else if read permissions && existsb (borrow_hit start end_) r_b
      then RErr SpaceAlreadyInUse
      else if write permissions && existsb (borrow_hit start end_) w_b
      then RErr SpaceAlreadyInUse
      else frag_parts_check r_b w_b permissions disk_size rest (size + (end_ - start))
  end.

Definition fragmented_subdisk (w : DiskWrapper) (parts : list (Z * Z))
    (permissions : Permissions) : res (FragmentedSubDisk * DiskWrapper) :=
  let disk_size := di_disk_size (dw_disk_infos w) in
  size <- frag_parts_check (r_borrows w) (w_borrows w) permissions disk_size parts 0 ;;
  let r := if read permissions then r_borrows w ++ parts else r_borrows w in
  let wb := if write permissions then w_borrows w ++ parts else w_borrows w in
  let sector_size := di_sector_size (dw_disk_infos w) in
  ROk (mkFragmentedSubDisk parts size sector_size permissions,
       mkDiskWrapper (dw_disk w) r wb).

(** [Vec::iter().position(|&x| x == p)] *)
Fixpoint position (p : Z * Z) (l : list (Z * Z)) : option nat :=
  match l with
  | [] => None
  | x :: l' =>
      if (fst x =? fst p) && (snd x =? snd p) then Some O
      else option_map S (position p l')
  end.

(** [Vec::swap_remove]: the last element takes the place of the removed one. *)
Definition swap_remove (l : list (Z * Z)) (idx : nat) : list (Z * Z) :=
  if Nat.eqb (S idx) (length l) then removelast l
  else firstn idx l ++ [last l (0, 0)] ++ skipn (S idx) (removelast l).

(** [position(..).unwrap()] followed by [swap_remove]. *)
Definition remove_loan (p : Z * Z) (l : list (Z * Z)) : res (list (Z * Z)) :=
  match position p l with
  | Some idx => ROk (swap_remove l idx)
  | None => RPanic
  end.

(** [impl Drop for SubDisk], parent alive. *)
Definition subdisk_drop (w : DiskWrapper) (sd : SubDisk) : res DiskWrapper :=
  r <- (if read (sd_permissions sd)
        then remove_loan (sd_start sd, sd_end sd) (r_borrows w)
        else ROk (r_borrows w)) ;;
  wb <- (if write (sd_permissions sd)
         then remove_loan (sd_start sd, sd_end sd) (w_borrows w)
         else ROk (w_borrows w)) ;;
  ROk (mkDiskWrapper (dw_disk w) r wb).

(** [impl Disk for DiskWrapper] *)
Definition dw_read_sector (w : DiskWrapper) (sector len : Z) : res (list Z) :=
  let start := sector * len in
  let end_ := start + len in
  if is_w_borrowed w start end_ then RErr Busy
  else md_read_sector (dw_disk w) sector len.

Definition dw_write_sector (w : DiskWrapper) (sector : Z) (buf : list Z)
  : res DiskWrapper :=
  let start := sector * Z.of_nat (length buf) in
  let end_ := start + Z.of_nat (length buf) in
  if is_w_borrowed w start end_ || is_r_borrowed w start end_ then RErr Busy
  else d <- md_write_sector (dw_disk w) sector buf ;;
       ROk (mkDiskWrapper d (r_borrows w) (w_borrows w)).

(** The checks shared by [SubDisk::read_sector] and [write_sector] up to
    the translated parent sector.  [parent] is the upgraded weak handle. *)
Definition subdisk_translate (parent : option DiskWrapper) (sd : SubDisk)
    (perm_ok : bool) (sector len : Z) : res (DiskWrapper * Z) :=
  match parent with
  | None => RErr UnreachableDisk
  | Some p =>
      if negb perm_ok then RErr (InvalidPermission (sd_permissions sd))
      else if negb (is_supported (sd_sector_size sd) len (sd_end sd - sd_start sd))
              || negb (is_multiple_of (sd_start sd) len)
      then RErr (InvalidSectorSize len (sd_sector_size sd) (sd_start sd))
      else
        let offset := sd_start sd + len * sector in
        if offset >=? sd_end sd then
          max <- rust_div (sd_end sd - sd_start sd) len ;;
          RErr (InvalidSectorIndex sector max)
        else
          s <- rust_div offset len ;;
          ROk (p, s)
  end.

Definition subdisk_read_sector (parent : option DiskWrapper) (sd : SubDisk)
    (sector len : Z) : res (list Z) :=
  ps <- subdisk_translate parent sd (read (sd_permissions sd)) sector len ;;
  md_read_sector (dw_disk (fst ps)) (snd ps) len.

Definition subdisk_write_sector (parent : option DiskWrapper) (sd : SubDisk)
    (sector : Z) (buf : list Z) : res MemDisk :=
  ps <- subdisk_translate parent sd (write (sd_permissions sd)) sector
          (Z.of_nat (length buf)) ;;
  md_write_sector (dw_disk (fst ps)) (snd ps) buf.

(** The fragment-search loop of [FragmentedSubDisk::read_sector] /
    [write_sector]: [Some offset] on [break], [None] when the loop runs
    out of parts (the variable [offset] then keeps its initial 0). *)
Fixpoint frag_locate (parts : list (Z * Z)) (sector_size sector current_sector : Z)
  : res (option Z) :=
  match parts with
  | [] => ROk None
  | (start, end_) :: rest =>
      if end_ <? start then RPanic
      else
        let size := end_ - start in
        m1 <- rust_rem size sector_size ;;
        m2 <- rust_rem start sector_size ;;
        if negb (m1 =? 0) || negb (m2 =? 0) then
          RErr (InvalidSectorSize sector_size Any 0)
        else
          if current_sector + size / sector_size >? sector then
            ROk (Some (start + (sector - current_sector) * sector_size))
          else frag_locate rest sector_size sector (current_sector + size / sector_size)
  end.

(** The error raised inside the loop carries [self.sector_size] and
    [self.parts[0].0]; [frag_fix_err] puts them in. *)
Definition frag_fix_err {A} (fs : FragmentedSubDisk) (r : res A) : res A :=
  match r with
  | RErr (InvalidSectorSize f _ _) =>
      RErr (InvalidSectorSize f (fs_sector_size fs) (fst (hd (0, 0) (fs_parts fs))))
  | _ => r
  end.

Definition frag_translate (parent : option DiskWrapper) (fs : FragmentedSubDisk)
    (perm_ok : bool) (sector len : Z) : res (DiskWrapper * Z) :=
  match parent with
  | None => RErr UnreachableDisk
  | Some p =>
      if negb perm_ok then RErr (InvalidPermission (fs_permissions fs))
      else match fs_parts fs with
      | [] => RErr (InvalidSectorIndex sector 0)
      | (s0, _) :: _ =>
          if negb (is_supported (fs_sector_size fs) len (fs_size fs)) then
            RErr (InvalidSectorSize len (fs_sector_size fs) s0)
          else
            o <- frag_fix_err fs (frag_locate (fs_parts fs) len sector 0) ;;
            let offset := match o with Some v => v | None => 0 end in
            s <- rust_div offset len ;;
            ROk (p, s)
      end
  end.

Definition frag_read_sector (parent : option DiskWrapper) (fs : FragmentedSubDisk)
    (sector len : Z) : res (list Z) :=
  ps <- frag_translate parent fs (read (fs_permissions fs)) sector len ;;
  md_read_sector (dw_disk (fst ps)) (snd ps) len.

Definition frag_write_sector (parent : option DiskWrapper) (fs : FragmentedSubDisk)
    (sector : Z) (buf : list Z) : res MemDisk :=
  ps <- frag_translate parent fs (write (fs_permissions fs)) sector
          (Z.of_nat (length buf)) ;;
  md_write_sector (dw_disk (fst ps)) (snd ps) buf.

(* ------------------------------------------------------------------ *)
(** ** Byte helpers: [Vec<u8>] indexing (panics out of range) and
    little-endian integers *)

Definition vec_get (l : list Z) (i : Z) : res Z :=
  if (0 <=? i) && (i <? Z.of_nat (length l)) then ROk (nth (Z.to_nat i) l 0)
  else RPanic.

Fixpoint list_set {A} (l : list A) (n : nat) (v : A) : list A :=
  match l, n with
  | [], _ => []
  | _ :: l', O => v :: l'
  | x :: l', S n' => x :: list_set l' n' v
  end.

Definition vec_set (l : list Z) (i v : Z) : res (list Z) :=
  if (0 <=? i) && (i <? Z.of_nat (length l)) then ROk (list_set l (Z.to_nat i) v)
  else RPanic.

Definition zeros (n : Z) : list Z := repeat 0 (Z.to_nat n).

Definition u16_le (b0 b1 : Z) : Z := b0 + 256 * b1.
Definition le_bytes (width : nat) (v : Z) : list Z :=
  map (fun k => Z.land (Z.shiftr v (8 * Z.of_nat k)) 255) (seq 0 width).
Fixpoint from_le (l : list Z) : Z :=
  match l with [] => 0 | b :: l' => b + 256 * from_le l' end.

(** [usize::div_ceil] and [usize::next_power_of_two]. *)
Definition div_ceil (a b : Z) : Z := (a + b - 1) / b.
Definition next_power_of_two (n : Z) : Z :=
  if n <=? 1 then 1 else 2 ^ Z.log2_up n.

(** [count_ones] on a non-negative integer. *)
Fixpoint pos_count_ones (p : positive) : Z :=
  match p with
  | xH => 1
  | xO p' => pos_count_ones p'
  | xI p' => 1 + pos_count_ones p'
  end.
Definition count_ones (n : Z) : Z :=
  match n with Zpos p => pos_count_ones p | _ => 0 end.

(* ------------------------------------------------------------------ *)
(** ** filesystems/fat/mod.rs: FAT entries and errors *)

Inductive FatEntry :=
| Free
| Allocated (next : Z)
| Bad
| EOF.

Inductive FatError :=
| InvalidValueForFATX
| ReservedValue
| FIndexOutOfRange
| InfiniteLoop.

(** The inner [Result<_, FatError>] of [Result<Result<_, FatError>, DiskErr>]. *)
Inductive fresult (A : Type) :=
| FOk (a : A)
| FErr (e : FatError).
Arguments FOk {A} a.
Arguments FErr {A} e.

Definition FatEntry_eqb (a b : FatEntry) : bool :=
  match a, b with
  | Free, Free | Bad, Bad | EOF, EOF => true
  | Allocated x, Allocated y => x =? y
  | _, _ => false
  end.

Definition is_eof (e : FatEntry) : bool := FatEntry_eqb e EOF.

(** [FatEntry::from_fat12] *)
Definition from_fat12 (value : Z) : fresult FatEntry :=
  if value >? 0xFFF then FErr InvalidValueForFATX
  else if value =? 0 then FOk Free
  else if (0x2 <=? value) && (value <=? 0xFF6) then FOk (Allocated value)
  else if value =? 0xFF7 then FOk Bad
  else if value =? 0xFFF then FOk EOF
  else FErr ReservedValue.

(** [FatEntry::to_fat12], with the comparison as written in the source. *)
Definition to_fat12 (e : FatEntry) : fresult Z :=
  match e with
  | Free => FOk 0
  | Allocated next =>
      if (next >? 0xFF6) || (next <? 2) then FOk next else FErr InvalidValueForFATX
  | Bad => FOk 0xFF7
  | EOF => FOk 0xFFF
  end.

(* ------------------------------------------------------------------ *)
(** ** The BIOS parameter block

    The module [bpb] that [fat12/mod.rs] and [fat16/mod.rs] declare is not
    part of the sources; its record follows the layout of the spec (§3),
    and the derived quantities below follow the spec's words. *)

Record BiosParameterBlock := mkBpb {
  bytes_per_sector : Z;
  sectors_per_cluster : Z;
  reserved_sectors_count : Z;
  number_of_fats : Z;
  root_entries_count : Z;
  total_sectors_16 : Z;
  media : Z;
  fat_size : Z;
  sectors_per_track : Z;
  number_of_heads : Z;
  hidden_sectors : Z;
  total_sectors_32 : Z;
  drive_number : Z;
  reserved0 : Z;
  boot_signature : Z;
  volume_id : Z;
  signature : Z
}.

(** Modelled from the spec: [BiosParameterBlock::data_start_sector] (bpb
    module absent), "reserved_sectors_count + number_of_fats × fat_size +
    ceil(root_entries_count × 32 / sector_size)" (§6). *)
Definition data_start_sector (b : BiosParameterBlock) : Z :=
  reserved_sectors_count b + number_of_fats b * fat_size b
  + div_ceil (root_entries_count b * 32) (bytes_per_sector b).

(** Modelled from the spec: [BiosParameterBlock::count_of_clusters] (bpb
    module absent): the clusters of the data region, which follows the
    root directory and is split in clusters of [sectors_per_cluster]
    sectors (§6, glossary). *)
Definition total_sectors (b : BiosParameterBlock) : Z :=
  if total_sectors_16 b =? 0 then total_sectors_32 b else total_sectors_16 b.

Definition count_of_clusters (b : BiosParameterBlock) : Z :=
  (total_sectors b - data_start_sector b) / sectors_per_cluster b.

Definition is_power_of_two (n : Z) : bool := count_ones n =? 1.

(** Modelled from the spec: [BiosParameterBlock::is_valid] (bpb module
    absent), the constraints of §3 "For a valid BPB". *)
Definition bpb_is_valid (b : BiosParameterBlock) : bool :=
  is_power_of_two (bytes_per_sector b) && (512 <=? bytes_per_sector b)
  && is_power_of_two (sectors_per_cluster b) && (sectors_per_cluster b <=? 128)
  && ((root_entries_count b * 32) mod bytes_per_sector b =? 0)
  && negb ((total_sectors_16 b =? 0) && (total_sectors_32 b =? 0))
  && (signature b =? 0xAA55).

(** Modelled from the spec: [BiosParameterBlock::to_bytes] (bpb module
    absent), the straight little-endian codec of the §3 layout; the
    constant fields (jmp_boot, oem_name, volume_label, fs_type, zero boot
    code) are laid out as [Fat12::new] and [Fat16::new] fill them. *)
Definition bpb_to_bytes (fs_type : list Z) (b : BiosParameterBlock) : list Z :=
  [0xEB; 0xFE; 0x90] ++ zeros 8
  ++ le_bytes 2 (bytes_per_sector b) ++ le_bytes 1 (sectors_per_cluster b)
  ++ le_bytes 2 (reserved_sectors_count b) ++ le_bytes 1 (number_of_fats b)
  ++ le_bytes 2 (root_entries_count b) ++ le_bytes 2 (total_sectors_16 b)
  ++ le_bytes 1 (media b) ++ le_bytes 2 (fat_size b)
  ++ le_bytes 2 (sectors_per_track b) ++ le_bytes 2 (number_of_heads b)
  ++ le_bytes 4 (hidden_sectors b) ++ le_bytes 4 (total_sectors_32 b)
  ++ le_bytes 1 (drive_number b) ++ le_bytes 1 (reserved0 b)
  ++ le_bytes 1 (boot_signature b) ++ le_bytes 4 (volume_id b)
  ++ [78; 79; 32; 78; 65; 77; 69; 32; 32; 32; 32] ++ fs_type
  ++ zeros 448 ++ le_bytes 2 (signature b).

(** The FAT filesystem handle ([Fat12] and [Fat16] have the same fields). *)
Record FatVolume := mkFatVolume {
  fv_bpb : BiosParameterBlock;
  fv_disk : DiskWrapper;
  fv_sector_size : Z
}.

(** [a - b] on [usize]: panics on underflow. *)
Definition usub (a b : Z) : res Z := if a <? b then RPanic else ROk (a - b).

(** The default sector size of [Fat12::new] and [Fat16::new]: the first of
    512, 1024, 2048, 4096 that the disk supports, else 0. *)
Definition default_sector_size (infos : DiskInfos) : Z :=
  match find (fun i => is_supported (di_sector_size infos) i (di_disk_size infos))
              [512; 1024; 2048; 4096] with
  | Some i => i
  | None => 0
  end.

(** The first [if] of [Fat12::new] and [Fat16::new] (identical in both):
    [true] means [return Ok(None)]. *)
Definition new_params_rejected (sector_size root_dir_entries number_of_fats
    hidden_sectors : Z) : bool :=
  (sector_size <? 512)
  || negb (count_ones sector_size =? 1)
  || (sector_size >? 0xFFFF)
  || is_multiple_of (root_dir_entries * 32) sector_size
  || (number_of_fats >? 0xFF)
  || (root_dir_entries >? 0xFFFF)
  || (hidden_sectors >? 0xFFFFFFFF).

(** [for i in 0..n { disk.write_sector(i, &sector)?; }] *)
Fixpoint write_sectors_from (w : DiskWrapper) (i : Z) (n : nat) (sector : list Z)
  : res DiskWrapper :=
  match n with
  | O => ROk w
  | S n' => w' <- dw_write_sector w i sector ;; write_sectors_from w' (i + 1) n' sector
  end.

(** The part of [Fat12::new] / [Fat16::new] after the choice of
    [sectors_per_cluster]: layout, BPB, zeroing and boot sector.
    [fat16] selects the FAT16 cluster-count check and file-system type. *)
Definition new_format (fat16 : bool) (w : DiskWrapper) (disk_size sector_size
    root_dir_entries number_of_fats hidden_sectors root_dir_sectors total_sectors
    sectors_per_cluster : Z) : res (option FatVolume) :=
  a <- usub total_sectors root_dir_sectors ;;
  a <- usub a 1 ;;
  let count0 := a / sectors_per_cluster in
  let fat_size := div_ceil (count0 + count0 / 2) sector_size in
  b <- usub total_sectors root_dir_sectors ;;
  b <- usub b (fat_size * number_of_fats) ;;
  b <- usub b 1 ;;
  let count_of_clusters := b / sectors_per_cluster in
  r <- usub total_sectors (count_of_clusters * sectors_per_cluster) ;;
  r <- usub r (fat_size * number_of_fats) ;;
  reserved_sectors <- usub r root_dir_sectors ;;
  if fat16 && ((count_of_clusters <? 4085) || (count_of_clusters >? 65525))
  then ROk None
  else
  let '(ts16, ts32) :=
    if total_sectors <? 0x10000 then (total_sectors mod 2^16, 0)
    else (0, total_sectors mod 2^32) in
  let bpb := mkBpb (sector_size mod 2^16) (sectors_per_cluster mod 2^8)
               (reserved_sectors mod 2^16) (number_of_fats mod 2^8)
               (root_dir_entries mod 2^16) ts16 0xF8 (fat_size mod 2^16) 0 0
               (hidden_sectors mod 2^32) ts32 0x80 0 0x29 0 0xAA55 in
  if negb (bpb_is_valid bpb) then ROk None
  else
    let fs_type := if fat16 then [70; 65; 84; 49; 54; 32; 32; 32]
                   else [70; 65; 84; 49; 50; 32; 32; 32] in
    let n := reserved_sectors + number_of_fats * fat_size + root_dir_sectors in
    w <- write_sectors_from w 0 (Z.to_nat n) (zeros sector_size) ;;
    w <- dw_write_sector w 0 (bpb_to_bytes fs_type bpb ++ zeros (sector_size - 512)) ;;
    ROk (Some (mkFatVolume bpb w sector_size)).

(** [let mut clusters = ...; for i in 0..clusters.len() { ... }] of
    [create_frangemented_subdisk]; [start_of c] is the first sector the
    variant computes for cluster [c]. *)
Fixpoint cluster_parts (count ss spc : Z) (start_of : Z -> Z) (clusters : list Z)
  : fresult (list (Z * Z)) :=
  match clusters with
  | [] => FOk []
  | c :: rest =>
      if (c >=? count) || (c <? 2) then FErr FIndexOutOfRange
      else if existsb (Z.eqb c) rest then FErr InfiniteLoop
      else
        match cluster_parts count ss spc start_of rest with
        | FOk ps => FOk ((start_of c * ss, (start_of c + spc) * ss) :: ps)
        | FErr e => FErr e
        end
  end.

Definition map_fok {A} (r : res A) : res (fresult A) :=
  match r with ROk a => ROk (FOk a) | RErr e => RErr e | RPanic => RPanic end.

(* ------------------------------------------------------------------ *)
(** ** filesystems/fat/fat12/mod.rs *)

Module Fat12.

Definition new (disk : MemDisk) (root_dir_entries number_of_fats hidden_sectors : Z)
    (sector_size_opt sectors_per_cluster_opt : option Z) : res (option FatVolume) :=
  let w := dw_new disk in
  let disk_infos := dw_disk_infos w in
  let sector_size :=
    match sector_size_opt with Some v => v | None => default_sector_size disk_infos end in
  if new_params_rejected sector_size root_dir_entries number_of_fats hidden_sectors
  then ROk None
  else
    let root_dir_sectors := (root_dir_entries * 32) / sector_size in
    let total_sectors := di_disk_size disk_infos / sector_size in
    spc <- match sectors_per_cluster_opt with
           | Some v => ROk v
           | None => a <- usub total_sectors root_dir_sectors ;;
                     a <- usub a 1 ;;
                     ROk (next_power_of_two (div_ceil a 4085))
           end ;;
    if negb (count_ones spc =? 1) || (spc >? 0xFF) || (total_sectors >? 0xFFFFFFFF)
    then ROk None
    else new_format false w (di_disk_size disk_infos) sector_size root_dir_entries
           number_of_fats hidden_sectors root_dir_sectors total_sectors spc.

(** Shared addressing of [get_fat_entry] and [set_fat_entry]: the sector
    of the entry, its offset in that sector, and [fat_offset]. *)
Definition entry_address (f : FatVolume) (index fat_index : Z) : Z * Z * Z :=
  let b := fv_bpb f in
  let fat_offset := index + index / 2 in
  let sector_number := reserved_sectors_count b + fat_offset / fv_sector_size f
                       + fat_index * fat_size b in
  (sector_number, fat_offset mod fv_sector_size f, fat_offset).

(** The two-sector buffer [sectors], filled as both functions fill it. *)
Definition read_entry_sectors (f : FatVolume) (sector_number fat_offset : Z)
  : res (list Z) :=
  let ss := fv_sector_size f in
  s0 <- dw_read_sector (fv_disk f) sector_number ss ;;
  if fat_offset =? ss - 1 then
    s1 <- dw_read_sector (fv_disk f) (sector_number + 1) ss ;;
    ROk (s0 ++ s1)
  else ROk (s0 ++ zeros ss).

Definition get_fat_entry (f : FatVolume) (index fat_index : Z)
  : res (fresult FatEntry) :=
  if (index >=? count_of_clusters (fv_bpb f)) || (fat_index >=? number_of_fats (fv_bpb f))
  then ROk (FErr FIndexOutOfRange)
  else
    let '(sector_number, fat_entry_offset, fat_offset) := entry_address f index fat_index in
    sectors <- read_entry_sectors f sector_number fat_offset ;;
    b0 <- vec_get sectors fat_entry_offset ;;
    b1 <- vec_get sectors (fat_entry_offset + 1) ;;
    let entry := u16_le b0 b1 in
    let entry := if Z.land index 1 =? 1 then Z.shiftr entry 4 else Z.land entry 0xFFF in
    ROk (from_fat12 entry).

(** Returns the volume with its registry after the write. *)
Definition set_fat_entry (f : FatVolume) (index fat_index : Z) (value : FatEntry)
  : res (fresult unit * FatVolume) :=
  if (index >=? count_of_clusters (fv_bpb f)) || (fat_index >=? number_of_fats (fv_bpb f))
  then ROk (FErr FIndexOutOfRange, f)
  else
    let ss := fv_sector_size f in
    let '(sector_number, fat_entry_offset, fat_offset) := entry_address f index fat_index in
    sectors <- read_entry_sectors f sector_number fat_offset ;;
    match to_fat12 value with
    | FErr e => ROk (FErr e, f)
    | FOk v =>
        let value := v mod 2^16 in
        sectors <-
          (if Z.land index 1 =? 1 then
             b0 <- vec_get sectors fat_entry_offset ;;
             s <- vec_set sectors fat_entry_offset (Z.land b0 0xF) ;;
             vec_set s (fat_entry_offset + 1) 0
           else
             s <- vec_set sectors fat_entry_offset 0 ;;
             b1 <- vec_get s (fat_entry_offset + 1) ;;
             vec_set s (fat_entry_offset + 1) (Z.land b1 0xF0)) ;;
        let value := if Z.land index 1 =? 1 then (Z.shiftl value 4) mod 2^16
                     else Z.land value 0xFFF in
        let entry := le_bytes 2 value in
        b0 <- vec_get sectors fat_entry_offset ;;
        sectors <- vec_set sectors fat_entry_offset (Z.lor b0 (nth 0 entry 0)) ;;
        b1 <- vec_get sectors (fat_entry_offset + 1) ;;
        sectors <- vec_set sectors (fat_entry_offset + 1) (Z.lor b1 (nth 1 entry 0)) ;;
        w <- dw_write_sector (fv_disk f) sector_number (firstn (Z.to_nat ss) sectors) ;;
        _ <- (if fat_offset =? ss - 1
              then dw_read_sector w (sector_number + 1) ss
              else ROk []) ;;
        ROk (FOk tt, mkFatVolume (fv_bpb f) w ss)
    end.

Definition get_cluster (f : FatVolume) (index : Z) (permissions : Permissions)
  : res (fresult (SubDisk * DiskWrapper)) :=
  let b := fv_bpb f in
  if (index >=? count_of_clusters b) || (index <? 2) then ROk (FErr FIndexOutOfRange)
  else
    let first_sector := data_start_sector b + (index - 2) * sectors_per_cluster b in
    map_fok (subdisk (fv_disk f) (first_sector * fv_sector_size f)
               ((first_sector + sectors_per_cluster b) * fv_sector_size f) permissions).

Definition get_root_dir (f : FatVolume) (permissions : Permissions)
  : res (SubDisk * DiskWrapper) :=
  let b := fv_bpb f in
  let ss := fv_sector_size f in
  let root_dir_start := (reserved_sectors_count b + fat_size b + number_of_fats b) * ss in
  let root_dir_end := root_dir_start + div_ceil (root_entries_count b * 32) ss * ss in
  subdisk (fv_disk f) root_dir_start root_dir_end permissions.

Definition cluster_start (f : FatVolume) (c : Z) : Z :=
  let b := fv_bpb f in
  reserved_sectors_count b + fat_size b * number_of_fats b
  + (c - 2) * sectors_per_cluster b.

Definition create_frangemented_subdisk (f : FatVolume) (clusters : list Z)
    (permissions : Permissions) : res (fresult (FragmentedSubDisk * DiskWrapper)) :=
  let b := fv_bpb f in
  match cluster_parts (count_of_clusters b) (fv_sector_size f) (sectors_per_cluster b)
          (cluster_start f) clusters with
  | FErr e => ROk (FErr e)
  | FOk parts => map_fok (fragmented_subdisk (fv_disk f) parts permissions)
  end.

End Fat12.

(* ------------------------------------------------------------------ *)
(** ** filesystems/fat/fat16/mod.rs (the parts the FAT16 handle differs in) *)

Module Fat16.

Definition new (disk : MemDisk) (root_dir_entries number_of_fats hidden_sectors : Z)
    (sector_size_opt sectors_per_cluster_opt : option Z) : res (option FatVolume) :=
  let w := dw_new disk in
  let disk_infos := dw_disk_infos w in
  let sector_size :=
    match sector_size_opt with Some v => v | None => default_sector_size disk_infos end in
  if new_params_rejected sector_size root_dir_entries number_of_fats hidden_sectors
  then ROk None
  else
    let root_dir_sectors := (root_dir_entries * 32) / sector_size in
    let total_sectors := di_disk_size disk_infos / sector_size in
    spc <- match sectors_per_cluster_opt with
           | Some v => ROk v
           | None => a <- usub total_sectors root_dir_sectors ;;
                     a <- usub a 1 ;;
                     ROk (next_power_of_two (div_ceil a 65525))
           end ;;
    if negb (is_power_of_two spc) || (spc >? 0xFF) || (total_sectors >? 0xFFFFFFFF)
    then ROk None
    else new_format true w (di_disk_size disk_infos) sector_size root_dir_entries
           number_of_fats hidden_sectors root_dir_sectors total_sectors spc.

Definition get_cluster (f : FatVolume) (index : Z) (permissions : Permissions)
  : res (fresult (SubDisk * DiskWrapper)) :=
  let b := fv_bpb f in
  if (index >=? count_of_clusters b) || (index <? 2) then ROk (FErr FIndexOutOfRange)
  else
    let first_sector := data_start_sector b + (index - 2) * sectors_per_cluster b in
    map_fok (subdisk (fv_disk f) (first_sector * fv_sector_size f)
               ((first_sector + sectors_per_cluster b) * fv_sector_size f) permissions).

Definition get_root_dir (f : FatVolume) (permissions : Permissions)
  : res (SubDisk * DiskWrapper) :=
  let b := fv_bpb f in
  let ss := fv_sector_size f in
  let root_dir_start := (reserved_sectors_count b + fat_size b * number_of_fats b) * ss in
  let root_dir_end := root_dir_start + div_ceil (root_entries_count b * 32) ss * ss in
  subdisk (fv_disk f) root_dir_start root_dir_end permissions.

Definition cluster_start (f : FatVolume) (c : Z) : Z :=
  let b := fv_bpb f in
  reserved_sectors_count b + fat_size b * number_of_fats b
  + (root_entries_count b * 32) / fv_sector_size f
  + (c - 2) * sectors_per_cluster b.

Definition create_frangemented_subdisk (f : FatVolume) (clusters : list Z)
    (permissions : Permissions) : res (fresult (FragmentedSubDisk * DiskWrapper)) :=
  let b := fv_bpb f in
  match cluster_parts (count_of_clusters b) (fv_sector_size f) (sectors_per_cluster b)
          (cluster_start f) clusters with
  | FErr e => ROk (FErr e)
  | FOk parts => map_fok (fragmented_subdisk (fv_disk f) parts permissions)
  end.

End Fat16.

(* ------------------------------------------------------------------ *)
(** ** The [FatFS] trait and its provided method [get_file] *)

Class FatFS (T : Type) := {
  get_fat_entry : T -> Z -> Z -> res (fresult FatEntry);
  create_frangemented_subdisk :
    T -> list Z -> Permissions -> res (fresult (FragmentedSubDisk * DiskWrapper))
}.

#[global] Instance FatFS_Fat12 : FatFS FatVolume := {
  get_fat_entry := Fat12.get_fat_entry;
  create_frangemented_subdisk := Fat12.create_frangemented_subdisk
}.

Section GetFile.
Context {T : Type} `{FatFS T}.

(** The state of the [while !current_entry.is_eof()] loop of [get_file]. *)
Inductive loop_state :=
| Continue (clusters : list Z) (current_entry : FatEntry)
| Exit (r : res (fresult (list Z))).

(** One iteration of the loop (or its exit). *)
Definition get_file_body (fs : T) (clusters : list Z) (current_entry : FatEntry)
  : loop_state :=
  if is_eof current_entry then Exit (ROk (FOk clusters))
  else
    match current_entry with
    | Allocated next =>
        match get_fat_entry fs next 0 with
        | ROk (FOk v) => Continue (clusters ++ [next]) v
        | ROk (FErr e) => Exit (ROk (FErr e))
        | RErr e => Exit (RErr e)
        | RPanic => Exit RPanic
        end
    | _ => Continue clusters current_entry
    end.

(** The loop run for at most [fuel] iterations; [None] when it has not
    exited by then. *)
Fixpoint get_file_loop (fuel : nat) (fs : T) (clusters : list Z)
    (current_entry : FatEntry) : option (res (fresult (list Z))) :=
  match fuel with
  | O => None
  | S fuel' =>
      match get_file_body fs clusters current_entry with
      | Exit r => Some r
      | Continue cl e => get_file_loop fuel' fs cl e
      end
  end.

Definition get_file (fuel : nat) (fs : T) (first_cluster : Z) (permissions : Permissions)
  : option (res (fresult (FragmentedSubDisk * DiskWrapper))) :=
  match get_fat_entry fs first_cluster 0 with
  | RErr e => Some (RErr e)
  | RPanic => Some RPanic
  | ROk (FErr e) => Some (ROk (FErr e))
  | ROk (FOk v) =>
      match get_file_loop fuel fs [first_cluster] v with
      | None => None
      | Some (ROk (FOk clusters)) => Some (create_frangemented_subdisk fs clusters permissions)
      | Some (ROk (FErr e)) => Some (ROk (FErr e))
      | Some (RErr e) => Some (RErr e)
      | Some RPanic => Some RPanic
      end
  end.

End GetFile.

(* ------------------------------------------------------------------ *)
(** ** partition_tables/mbr: the raw 512-byte record and [GenericMbr] *)

Module Mbr.

Record MbrEntry := mkMbrEntry {
  status : Z;
  chs_first : list Z;
  partition_type : Z;
  chs_last : list Z;
  lba_first : Z;
  sectors : Z
}.

Record RawMbr := mkRawMbr {
  bootstrap : list Z;
  partitions : list MbrEntry;
  signature : Z
}.

Definition MbrEntry_empty : MbrEntry := mkMbrEntry 0 [0; 0; 0] 0 [0; 0; 0] 0 0.

Definition write_to (e : MbrEntry) : list Z :=
  [status e] ++ chs_first e ++ [partition_type e] ++ chs_last e
  ++ le_bytes 4 (lba_first e) ++ le_bytes 4 (sectors e).

Definition read_from (buf : list Z) : MbrEntry :=
  let b k := nth k buf 0 in
  mkMbrEntry (b 0%nat) [b 1%nat; b 2%nat; b 3%nat] (b 4%nat) [b 5%nat; b 6%nat; b 7%nat]
    (from_le (firstn 4 (skipn 8 buf))) (from_le (firstn 4 (skipn 12 buf))).

Definition to_bytes (m : RawMbr) : list Z :=
  bootstrap m ++ flat_map write_to (partitions m)
  ++ [Z.land (signature m) 0xFF; Z.shiftr (signature m) 8].

Definition from_bytes (buf : list Z) : option RawMbr :=
  if (Z.of_nat (length buf) <? 512) then None
  else
    let part i := read_from (firstn 16 (skipn (446 + 16 * i) buf)) in
    Some (mkRawMbr (firstn 446 buf) [part 0%nat; part 1%nat; part 2%nat; part 3%nat]
            (u16_le (nth 510 buf 0) (nth 511 buf 0))).

(** [RawMbr::read_from_disk], called on the raw disk. *)
Definition raw_read_from_disk (disk : MemDisk) : res RawMbr :=
  match minimal_ge (di_sector_size (md_disk_infos disk)) 512 with
  | Some sector_size =>
      sector <- md_read_sector disk 0 sector_size ;;
      match from_bytes sector with Some m => ROk m | None => RPanic end
  | None => RErr UnsupportedDiskSectorSize
  end.

(** [RawMbr::write_to_disk], called on the registry. *)
Definition raw_write_to_disk (m : RawMbr) (disk : DiskWrapper) : res DiskWrapper :=
  match minimal_ge (di_sector_size (dw_disk_infos disk)) 512 with
  | None => RErr UnsupportedDiskSectorSize
  | Some sector_size =>
      dw_write_sector disk 0 (to_bytes m ++ zeros (sector_size - 512))
  end.

Record PartitionInfos := mkPartitionInfos {
  lba_start : Z;
  size : Z;
  pi_sector_size : Z;
  pi_partition_type : Z
}.

Record GenericMbr := mkGenericMbr {
  raw : RawMbr;
  disk : DiskWrapper;
  sector_size : Z
}.

Definition choose_sector_size (d : MemDisk) (sector_size : option Z) : res Z :=
  match sector_size with
  | None => match minimal_ge (di_sector_size (md_disk_infos d)) 512 with
            | None => RErr UnsupportedDiskSectorSize
            | Some v => ROk v
            end
  | Some v => ROk v
  end.

Definition new (d : MemDisk) (sector_size : option Z) : res GenericMbr :=
  ss <- choose_sector_size d sector_size ;;
  ROk (mkGenericMbr (mkRawMbr (zeros 446) (repeat MbrEntry_empty 4) 0xAA55)
         (dw_new d) ss).

Definition read_from_disk (d : MemDisk) (sector_size : option Z)
  : res (option GenericMbr) :=
  ss <- choose_sector_size d sector_size ;;
  r <- raw_read_from_disk d ;;
  if signature r =? 0xAA55 then ROk (Some (mkGenericMbr r (dw_new d) ss))
  else ROk None.

Definition write (m : GenericMbr) : res GenericMbr :=
  w <- raw_write_to_disk (raw m) (disk m) ;;
  ROk (mkGenericMbr (raw m) w (sector_size m)).

(** [self.raw.partitions.get(i)] *)
Definition get_partition_entry (m : GenericMbr) (i : Z) : option MbrEntry :=
  if (0 <=? i) && (i <? 4) then nth_error (partitions (raw m)) (Z.to_nat i) else None.

Definition partition_infos (m : GenericMbr) (partition_index : Z)
  : option PartitionInfos :=
  option_map (fun v => mkPartitionInfos (lba_first v) (sectors v) (sector_size m)
                         (partition_type v))
    (get_partition_entry m partition_index).

(** [p.lba_first + p.sectors] is a [u32] addition: it panics on overflow. *)
Fixpoint overlap_scan (ps : list MbrEntry) (start end_ : Z) : res unit :=
  match ps with
  | [] => ROk tt
  | p :: ps' =>
      if lba_first p + sectors p >=? 2^32 then RPanic
      else
        let e := lba_first p + sectors p in
        if ((lba_first p <=? start) && (start <? e))
           || ((lba_first p <? end_) && (end_ <=? e))
        then RErr SpaceAlreadyInUse
        else overlap_scan ps' start end_
  end.

Definition create_partition (m : GenericMbr) (partition_index start size : Z)
    (partition_type : Z) : res GenericMbr :=
  if partition_index >=? 4 then RErr InvalidPartitionIndex
  else
    let end_ := start + size in
    _ <- overlap_scan (partitions (raw m)) start end_ ;;
    if start =? 0 then RErr SpaceAlreadyInUse
    else
      let disk_size := di_disk_size (dw_disk_infos (disk m)) in
      max <- rust_div disk_size (sector_size m) ;;
      if end_ >? max then RErr (InvalidSectorIndex end_ max)
      else if start >=? 2^32 then RErr OutOfRangeValue
      else if size >=? 2^32 then RErr OutOfRangeValue
      else
        let entry := mkMbrEntry 0x80 [0; 0; 0] partition_type [0; 0; 0] start size in
        let r := raw m in
        ROk (mkGenericMbr
               (mkRawMbr (bootstrap r)
                  (list_set (partitions r) (Z.to_nat partition_index) entry)
                  (signature r))
               (disk m) (sector_size m)).


End Mbr.

(* ------------------------------------------------------------------ *)
(** ** Derived notions used in the statements *)

(** Half-open overlap of two byte ranges, empty touch excluded. *)
Definition ranges_overlap (a b : Z * Z) : bool :=
  (fst a <? snd b) && (fst b <? snd a).

(** The number of sectors of length [len] of a fragmented view. *)
Definition frag_total_sectors (parts : list (Z * Z)) (len : Z) : Z :=
  fold_right (fun p acc => (snd p - fst p) / len + acc) 0 parts.

(** Every part passes the alignment test of the fragment-search loop. *)
Definition parts_aligned (parts : list (Z * Z)) (len : Z) : bool :=
  forallb (fun p => (fst p <=? snd p) && ((snd p - fst p) mod len =? 0)
                    && (fst p mod len =? 0)) parts.

Definition is_sector_index_err {A} (r : res A) : bool :=
  match r with RErr (InvalidSectorIndex _ _) => true | _ => false end.

(** A zero-filled in-memory disk. *)
Definition blank_disk (ss : SectorSize) (len : Z) : MemDisk :=
  mkMemDisk ss read_write len (fun _ => 0).

(** The FAT12 volume used in the concrete statements: 512-byte sectors,
    one sector per cluster, one reserved sector, two FATs of three
    sectors, 16 root entries (one sector), 407 sectors in all. *)
Definition sample_bpb : BiosParameterBlock :=
  mkBpb 512 1 1 2 16 407 0xF8 3 0 0 0 0 0x80 0 0x29 0 0xAA55.

Definition sample_volume (content : Z -> Z) : FatVolume :=
  mkFatVolume sample_bpb (dw_new (mkMemDisk Any read_write (407 * 512) content)) 512.

(** FAT copy 0 starts at byte 512; entry 2 (bytes 3 and 4, low nibble)
    holds 0x003 and entry 3 (bytes 4, high nibble, and 5) holds 0x000. *)
Definition chain_2_3_free : Z -> Z := fun i => if i =? 515 then 3 else 0.

(** Scenario S1 of the spec: a 64 MiB in-memory disk with 512-byte sectors. *)
Definition s1_disk : MemDisk := blank_disk (AllOf [512]) (64 * 1024 * 1024).

Definition s1_created : res Mbr.GenericMbr :=
  m <- Mbr.new s1_disk None ;; Mbr.create_partition m 0 2048 131072 6.

(** The table written and re-opened; when [create_partition] fails the
    table is the one [new] built. *)
Definition s1_reopened : res (option Mbr.GenericMbr) :=
  m <- Mbr.new s1_disk None ;;
  let m := match Mbr.create_partition m 0 2048 131072 6 with ROk m' => m' | _ => m end in
  m <- Mbr.write m ;;
  Mbr.read_from_disk (dw_disk (Mbr.disk m)) None.

(* ------------------------------------------------------------------ *)
(** ** wrappers.rs: dropping a fragmented view *)

(** [for &(start, end) in &self.parts { position(..).unwrap(); swap_remove }] *)
Fixpoint remove_loans (ps : list (Z * Z)) (l : list (Z * Z)) : res (list (Z * Z)) :=
  match ps with
  | [] => ROk l
  | p :: ps' => l' <- remove_loan p l ;; remove_loans ps' l'
  end.

(** [impl Drop for FragmentedSubDisk], parent alive. *)
Definition frag_drop (w : DiskWrapper) (fs : FragmentedSubDisk) : res DiskWrapper :=
  r <- (if read (fs_permissions fs) then remove_loans (fs_parts fs) (r_borrows w)
        else ROk (r_borrows w)) ;;
  wb <- (if write (fs_permissions fs) then remove_loans (fs_parts fs) (w_borrows w)
         else ROk (w_borrows w)) ;;
  ROk (mkDiskWrapper (dw_disk w) r wb).

(* ------------------------------------------------------------------ *)
(** ** filesystems/fat/dir/mod.rs: raw directory entries *)

Module Dir.

Record DirEntryRaw := mkDirEntryRaw {
  short_name : list Z;
  attributes : Z;
  reserved : Z;
  creation_time_cents : Z;
  creation_time : Z;
  creation_date : Z;
  last_access_date : Z;
  first_cluster_high : Z;
  write_time : Z;
  write_date : Z;
  first_cluster_low : Z;
  file_size : Z
}.

(** [impl From<[u8; 32]> for DirEntryRaw] *)
Definition from_bytes (value : list Z) : DirEntryRaw :=
  let b k := nth k value 0 in
  mkDirEntryRaw (firstn 11 value) (b 11%nat) (b 12%nat) (b 13%nat)
    (u16_le (b 14%nat) (b 15%nat)) (u16_le (b 16%nat) (b 17%nat))
    (u16_le (b 18%nat) (b 19%nat)) (u16_le (b 20%nat) (b 21%nat))
    (u16_le (b 22%nat) (b 23%nat)) (u16_le (b 24%nat) (b 25%nat))
    (u16_le (b 26%nat) (b 27%nat))
    (from_le [b 28%nat; b 29%nat; b 30%nat; b 31%nat]).

(** [impl From<DirEntryRaw> for [u8; 32]]: bytes 28..32 stay 0. *)
Definition to_bytes (e : DirEntryRaw) : list Z :=
  short_name e ++ [attributes e; reserved e; creation_time_cents e]
  ++ le_bytes 2 (creation_time e) ++ le_bytes 2 (creation_date e)
  ++ le_bytes 2 (last_access_date e) ++ le_bytes 2 (first_cluster_high e)
  ++ le_bytes 2 (write_time e) ++ le_bytes 2 (write_date e)
  ++ le_bytes 2 (first_cluster_low e) ++ zeros 4.

Definition first_cluster (e : DirEntryRaw) : Z :=
  Z.lor (Z.shiftl (first_cluster_high e) 16) (first_cluster_low e).

Definition is_long_name (e : DirEntryRaw) : bool := Z.land (attributes e) 15 =? 15.

Definition is_free (e : DirEntryRaw) : bool :=
  (nth 0 (short_name e) 0 =? 0xE5) || (nth 0 (short_name e) 0 =? 0).

Definition is_ascii_lowercase (i : Z) : bool := (97 <=? i) && (i <=? 122).
Definition is_ascii_digit (i : Z) : bool := (48 <=? i) && (i <=? 57).

(** [b"$%'-_@~`!(){}^#&"] *)
Definition special_chars : list Z :=
  [36; 37; 39; 45; 95; 64; 126; 96; 33; 40; 41; 123; 125; 94; 35; 38].

Definition is_valid_entry (e : DirEntryRaw) : bool :=
  forallb (fun i => negb ((i <? 32)
                          || negb (is_ascii_lowercase i || is_ascii_digit i
                                   || zmem i special_chars)))
    (short_name e)
  && negb (nth 0 (short_name e) 0 =? 32)
  && (Z.land (attributes e) 0xC0 =? 0).

(** The fields hold what their Rust types can hold. *)
Definition is_byte (b : Z) : bool := (0 <=? b) && (b <? 256).
Definition is_u16 (v : Z) : bool := (0 <=? v) && (v <? 2^16).

Definition entry_fits (e : DirEntryRaw) : bool :=
  (Nat.eqb (length (short_name e)) 11) && forallb is_byte (short_name e)
  && is_byte (attributes e) && is_byte (reserved e) && is_byte (creation_time_cents e)
  && is_u16 (creation_time e) && is_u16 (creation_date e) && is_u16 (last_access_date e)
  && is_u16 (first_cluster_high e) && is_u16 (write_time e) && is_u16 (write_date e)
  && is_u16 (first_cluster_low e).

End Dir.

(** The MBR records hold what their Rust types can hold. *)
Definition mbr_entry_fits (e : Mbr.MbrEntry) : bool :=
  Dir.is_byte (Mbr.status e)
  && (Nat.eqb (length (Mbr.chs_first e)) 3) && forallb Dir.is_byte (Mbr.chs_first e)
  && Dir.is_byte (Mbr.partition_type e)
  && (Nat.eqb (length (Mbr.chs_last e)) 3) && forallb Dir.is_byte (Mbr.chs_last e)
  && (0 <=? Mbr.lba_first e) && (Mbr.lba_first e <? 2^32)
  && (0 <=? Mbr.sectors e) && (Mbr.sectors e <? 2^32).

Definition raw_mbr_fits (m : Mbr.RawMbr) : bool :=
  (Nat.eqb (length (Mbr.bootstrap m)) 446) && forallb Dir.is_byte (Mbr.bootstrap m)
  && (Nat.eqb (length (Mbr.partitions m)) 4) && forallb mbr_entry_fits (Mbr.partitions m)
  && Dir.is_u16 (Mbr.signature m).

(** A cluster chain in FAT copy 0: from [c], the entries link through
    [rest] with [Allocated] and the last one is [EOF]. *)
Section Chains.
Context {T : Type} `{FatFS T}.

Fixpoint chain_from (fs : T) (c : Z) (rest : list Z) : Prop :=
  match rest with
  | [] => get_fat_entry fs c 0 = ROk (FOk EOF)
  | n :: rest' => get_fat_entry fs c 0 = ROk (FOk (Allocated n)) /\ chain_from fs n rest'
  end.

End Chains.


(** The FAT entry that links a chain to its [rest]. *)
Definition chain_entry (rest : list Z) : FatEntry :=
  match rest with [] => EOF | n :: _ => Allocated n end.

(** FAT copy 0 of [sample_volume] holding the chain 2 -> 3 -> EOF:
    entry 2 is 0x003 (byte 515 and the low nibble of byte 516), entry 3
    is 0xFFF (the high nibble of byte 516 and byte 517). *)
Definition chain_2_3_eof : Z -> Z :=
  fun i => if i =? 515 then 3 else if i =? 516 then 0xF0 else if i =? 517 then 0xFF else 0.

(** A table on [s1_disk] holding one partition of 2048 sectors at
    sector 2048 in slot 0. *)
Definition s2_mbr : Mbr.GenericMbr :=
  Mbr.mkGenericMbr
    (Mbr.mkRawMbr (zeros 446)
       [Mbr.mkMbrEntry 0x80 [0; 0; 0] 6 [0; 0; 0] 2048 2048;
        Mbr.MbrEntry_empty; Mbr.MbrEntry_empty; Mbr.MbrEntry_empty] 0xAA55)
    (dw_new s1_disk) 512.

(** A directory entry named [hello___txt], 1234 bytes long, first cluster 5. *)
Definition sample_entry : Dir.DirEntryRaw :=
  Dir.mkDirEntryRaw [104; 101; 108; 108; 111; 95; 95; 95; 116; 120; 116]
    0x20 0 0 0x6000 0x5A21 0x5A21 0 0x6000 0x5A21 5 1234.

(** The 32 bytes of a directory entry named [HELLO   TXT]. *)
Definition sample_entry_bytes : list Z :=
  [72; 69; 76; 76; 79; 32; 32; 32; 84; 88; 84; 32; 0; 0; 0; 96; 33; 90; 33; 90;
   0; 0; 0; 96; 33; 90; 5; 0; 210; 4; 0; 0].

Ltac split_andb :=
  repeat match goal with
  | H : _ && _ = true |- _ => apply andb_true_iff in H as [? ?]
  | H : Nat.eqb _ _ = true |- _ => apply Nat.eqb_eq in H
  | H : (_ <=? _) = true |- _ => apply Z.leb_le in H
  | H : (_ <? _) = true |- _ => apply Z.ltb_lt in H
  end.

(* ================================================================== *)
(** * Properties *)

(** ** The overlap test of the registry *)

(** The per-interval test never fires when the requested range strictly
    contains the registered one. *)
Lemma borrow_hit_misses_strict_containment (start end_ : Z) (i : Z * Z) :
  start < fst i -> snd i < end_ -> borrow_hit start end_ i = false.
Proof.
  intros H1 H2. unfold borrow_hit.
  destruct (fst i <=? start) eqn:E1; [apply Z.leb_le in E1; lia|].
  destruct (end_ <=? snd i) eqn:E2; [apply Z.leb_le in E2; lia|].
  now rewrite !andb_false_r.
Qed.

(** C1: after a write subdisk on [10,20), a request on [0,30) (which
    overlaps it) is not refused: [is_w_borrowed 0 30] is false and both a
    read-only and a write-only subdisk on [0,30) are issued. *)
Theorem C1_write_loan_not_seen_by_enclosing_request :
  match subdisk (dw_new (blank_disk Any 100)) 10 20 write_only with
  | ROk (_, w1) =>
      ranges_overlap (10, 20) (0, 30) = true
      /\ is_w_borrowed w1 0 30 = false
      /\ (exists sd w2, subdisk w1 0 30 read_only = ROk (sd, w2))
      /\ (exists sd w2, subdisk w1 0 30 write_only = ROk (sd, w2))
  | _ => False
  end.
Proof.
  vm_compute. repeat split; eexists _, _; reflexivity.
Qed.

(** C2: [fragmented_subdisk] checks a read request against the read loans
    and a write request against the write loans: a second read-only view
    of [0,512) is refused, a read-only view over a write-only loan is
    issued; [subdisk] (the sibling path) issues the second read-only view. *)
Theorem C2_fragmented_aliasing_inverted :
  let w0 := dw_new (blank_disk Any 1024) in
  (match fragmented_subdisk w0 [(0, 512)] read_only with
   | ROk (_, w1) => fragmented_subdisk w1 [(0, 512)] read_only = RErr SpaceAlreadyInUse
   | _ => False
   end)
  /\ (match fragmented_subdisk w0 [(0, 512)] write_only with
      | ROk (_, w1) => exists fs w2, fragmented_subdisk w1 [(0, 512)] read_only = ROk (fs, w2)
      | _ => False
      end)
  /\ (match subdisk w0 0 512 read_only with
      | ROk (_, w1) => exists sd w2, subdisk w1 0 512 read_only = ROk (sd, w2)
      | _ => False
      end).
Proof.
  vm_compute. repeat split; try reflexivity; eexists _, _; reflexivity.
Qed.

(** ** FAT volume geometry *)

(** C6: on [sample_volume] (1 reserved sector, 2 FATs of 3 sectors) the
    FAT copies end at byte 3584; [Fat16::get_root_dir] starts there, while
    [Fat12::get_root_dir] starts at (1 + 3 + 2) × 512 = 3072, inside the
    second FAT copy.  Both span one sector (16 × 32 bytes). *)
Theorem C6_fat12_root_dir_offset :
  let f := sample_volume (fun _ => 0) in
  (reserved_sectors_count (fv_bpb f) + number_of_fats (fv_bpb f) * fat_size (fv_bpb f))
    * fv_sector_size f = 3584
  /\ (match Fat12.get_root_dir f read_only with
      | ROk (sd, _) => sd_start sd = 3072 /\ sd_end sd = 3584
      | _ => False
      end)
  /\ (match Fat16.get_root_dir f read_only with
      | ROk (sd, _) => sd_start sd = 3584 /\ sd_end sd = 4096
      | _ => False
      end).
Proof.
  vm_compute. repeat split.
Qed.

(** C7: for cluster 5 of [sample_volume], [Fat12::get_cluster] covers
    [5632, 6144) (data region from sector 8) while
    [Fat12::create_frangemented_subdisk] registers [5120, 5632): the FAT12
    translation leaves out the root directory sector; FAT16 agrees. *)
Theorem C7_fat12_fragment_range_differs :
  let f := sample_volume (fun _ => 0) in
  (match Fat12.get_cluster f 5 read_only, Fat12.create_frangemented_subdisk f [5] read_only with
   | ROk (FOk (sd, _)), ROk (FOk (fs, _)) =>
       (sd_start sd, sd_end sd) = (5632, 6144) /\ fs_parts fs = [(5120, 5632)]
   | _, _ => False
   end)
  /\ (match Fat16.get_cluster f 5 read_only, Fat16.create_frangemented_subdisk f [5] read_only with
      | ROk (FOk (sd, _)), ROk (FOk (fs, _)) =>
          (sd_start sd, sd_end sd) = (5632, 6144) /\ fs_parts fs = [(5632, 6144)]
      | _, _ => False
      end).
Proof.
  vm_compute. repeat split.
Qed.

(** ** Panics *)

(** C8: a zero-length buffer given to a subdisk that starts at byte 0 of a
    disk accepting [SectorSize::Any] passes every check of
    [SubDisk::read_sector] / [write_sector] and reaches [offset / 0]; a
    fragmented view panics on [size % 0]. *)
Theorem C8_zero_length_buffer_panics :
  let w0 := dw_new (blank_disk Any 512) in
  (match subdisk w0 0 512 read_write with
   | ROk (sd, w1) =>
       subdisk_read_sector (Some w1) sd 0 0 = RPanic
       /\ subdisk_write_sector (Some w1) sd 0 [] = RPanic
   | _ => False
   end)
  /\ (match fragmented_subdisk w0 [(0, 512)] read_write with
      | ROk (fs, w1) =>
          frag_read_sector (Some w1) fs 0 0 = RPanic
          /\ frag_write_sector (Some w1) fs 0 [] = RPanic
      | _ => False
      end).
Proof.
  vm_compute. repeat split.
Qed.

(** ** Scenario S1 *)

(** C9 (as stated): [create_partition(0, 2048, 131072, 0x06)] fails on
    the 131072-sector disk, and after write and re-open partition 0 is not
    the requested one and partition 1 is present. *)
Theorem C9_s1_counterexample :
  s1_created = RErr (InvalidSectorIndex 133120 131072)
  /\ (match s1_reopened with
      | ROk (Some m) =>
          Mbr.partition_infos m 0 <> Some (Mbr.mkPartitionInfos 2048 131072 512 6)
          /\ Mbr.partition_infos m 1 <> None
      | _ => False
      end).
Proof.
  split.
  - vm_compute. reflexivity.
  - vm_compute. split; discriminate.
Qed.

(** C9 (amended): in S1 the partition request is rejected with
    [InvalidSectorIndex {found = 133120, max = 131072}]; after write and
    re-open the four entries are reported, all zero with sector size 512,
    and [partition_infos] is absent from index 4 on. *)
Theorem C9_s1_reopened_infos :
  s1_created = RErr (InvalidSectorIndex 133120 131072)
  /\ (match s1_reopened with
      | ROk (Some m) =>
          map (Mbr.partition_infos m) [0; 1; 2; 3]
            = repeat (Some (Mbr.mkPartitionInfos 0 0 512 0)) 4
          /\ Mbr.partition_infos m 4 = None
      | _ => False
      end).
Proof.
  split; vm_compute; [reflexivity | split; reflexivity].
Qed.

(** ** FAT12 entry codec *)

(** [to_fat12] refuses exactly the values [from_fat12] decodes as
    [Allocated]. *)
Lemma to_fat12_refuses_allocated (next : Z) :
  2 <= next <= 0xFF6 -> to_fat12 (Allocated next) = FErr InvalidValueForFATX.
Proof.
  intros [H1 H2]. unfold to_fat12.
  destruct (next >? 0xFF6) eqn:E1; [apply Z.gtb_lt in E1; lia|].
  destruct (next <? 2) eqn:E2; [apply Z.ltb_lt in E2; lia|].
  reflexivity.
Qed.

Lemma from_fat12_allocated (next : Z) :
  2 <= next <= 0xFF6 -> from_fat12 next = FOk (Allocated next).
Proof.
  intros [H1 H2]. unfold from_fat12.
  destruct (next >? 0xFFF) eqn:E1; [apply Z.gtb_lt in E1; lia|].
  destruct (next =? 0) eqn:E2; [apply Z.eqb_eq in E2; lia|].
  apply Z.leb_le in H1. apply Z.leb_le in H2. now rewrite H1, H2.
Qed.

(** C3: on [sample_volume], [set_fat_entry(3, 0, Allocated {next: 4})]
    writes nothing and answers [InvalidValueForFATX]; and for entry 341,
    whose first byte is byte 511 of its FAT sector, [set_fat_entry(341, 0,
    EOF)] followed by [get_fat_entry(341, 0)] yields [Allocated {next:
    0x00F}]: the second sector of the straddling entry is read back
    instead of written. *)
Theorem C3_fat12_set_get_roundtrip_fails :
  let f := sample_volume (fun _ => 0) in
  Fat12.set_fat_entry f 3 0 (Allocated 4) = ROk (FErr InvalidValueForFATX, f)
  /\ 341 + 341 / 2 = fv_sector_size f - 1
  /\ (match Fat12.set_fat_entry f 341 0 EOF with
      | ROk (FOk tt, f') => Fat12.get_fat_entry f' 341 0 = ROk (FOk (Allocated 0xF))
      | _ => False
      end).
Proof.
  split; [|split]; vm_compute; reflexivity.
Qed.

(** ** Cluster-chain traversal *)

Section GetFileProofs.
Context {T : Type} `{FatFS T}.

Lemma get_file_body_stuck (fs : T) (clusters : list Z) (e : FatEntry) :
  e = Free \/ e = Bad -> get_file_body fs clusters e = Continue clusters e.
Proof. intros [-> | ->]; reflexivity. Qed.

Lemma get_file_loop_stuck (fs : T) (fuel : nat) (clusters : list Z) (e : FatEntry) :
  e = Free \/ e = Bad -> get_file_loop fuel fs clusters e = None.
Proof.
  intros He. induction fuel as [|fuel IH]; [reflexivity|].
  simpl. now rewrite get_file_body_stuck.
Qed.

(** C4: when the chain reaches a [Free] or [Bad] entry after its first
    cluster, the loop of [get_file] makes no progress: one iteration
    leaves its state unchanged, and no number of iterations exits. *)
Theorem C4_get_file_loops_on_free_or_bad (fs : T) (first_cluster next : Z)
    (e : FatEntry) (permissions : Permissions) :
  get_fat_entry fs first_cluster 0 = ROk (FOk (Allocated next)) ->
  get_fat_entry fs next 0 = ROk (FOk e) ->
  e = Free \/ e = Bad ->
  get_file_body fs [first_cluster; next] e = Continue [first_cluster; next] e
  /\ forall fuel, get_file fuel fs first_cluster permissions = None.
Proof.
  intros H1 H2 He. split; [now apply get_file_body_stuck|].
  intros fuel. unfold get_file. rewrite H1.
  destruct fuel as [|fuel]; [reflexivity|].
  simpl get_file_loop. unfold get_file_body at 1. simpl is_eof. cbv iota.
  rewrite H2. simpl app. now rewrite get_file_loop_stuck.
Qed.

End GetFileProofs.

Lemma C4_get_file_loops_on_free_or_bad_witness :
  let f := sample_volume chain_2_3_free in
  Fat12.get_fat_entry f 2 0 = ROk (FOk (Allocated 3))
  /\ Fat12.get_fat_entry f 3 0 = ROk (FOk Free)
  /\ forall fuel, get_file fuel f 2 read_only = None.
Proof.
  intros f.
  assert (H1 : Fat12.get_fat_entry f 2 0 = ROk (FOk (Allocated 3))) by (vm_compute; reflexivity).
  assert (H2 : Fat12.get_fat_entry f 3 0 = ROk (FOk Free)) by (vm_compute; reflexivity).
  split; [exact H1|]. split; [exact H2|].
  exact (proj2 (C4_get_file_loops_on_free_or_bad f 2 3 Free read_only H1 H2
                  (or_introl eq_refl))).
Defined.

(** ** Format-time parameter checks *)

(** C5: with a sector size of at least 512 that divides
    [root_dir_entries × 32], the first check of [Fat12::new] and
    [Fat16::new] already returns [Ok(None)]. *)
Theorem C5_new_rejects_aligned_root_dir (disk : MemDisk)
    (root_dir_entries number_of_fats hidden_sectors sector_size : Z)
    (sectors_per_cluster : option Z) :
  512 <= sector_size ->
  (root_dir_entries * 32) mod sector_size = 0 ->
  Fat12.new disk root_dir_entries number_of_fats hidden_sectors (Some sector_size)
    sectors_per_cluster = ROk None
  /\ Fat16.new disk root_dir_entries number_of_fats hidden_sectors (Some sector_size)
       sectors_per_cluster = ROk None.
Proof.
  intros Hss Hmod.
  assert (Hrej : new_params_rejected sector_size root_dir_entries number_of_fats
                   hidden_sectors = true).
  { unfold new_params_rejected, is_multiple_of.
    destruct (sector_size =? 0) eqn:E; [apply Z.eqb_eq in E; lia|].
    rewrite Hmod. simpl Z.eqb. now rewrite !orb_true_r, ?orb_true_l. }
  split; unfold Fat12.new, Fat16.new; now rewrite Hrej.
Qed.

Lemma C5_new_rejects_aligned_root_dir_witness :
  512 <= 512 /\ (16 * 32) mod 512 = 0
  /\ Fat12.new (blank_disk Any (2 * 1024 * 1024)) 16 2 0 (Some 512) None = ROk None
  /\ Fat16.new (blank_disk Any (2 * 1024 * 1024)) 16 2 0 (Some 512) None = ROk None.
Proof.
  assert (H1 : 512 <= 512) by lia.
  assert (H2 : (16 * 32) mod 512 = 0) by reflexivity.
  split; [exact H1|]. split; [exact H2|].
  exact (C5_new_rejects_aligned_root_dir _ 16 2 0 512 None H1 H2).
Defined.

(** ** Fragmented views: requests past the end *)

Lemma frag_total_sectors_nonneg (parts : list (Z * Z)) (len : Z) :
  0 < len -> parts_aligned parts len = true -> 0 <= frag_total_sectors parts len.
Proof.
  intros Hlen. induction parts as [|[s e] rest IH]; simpl; [lia|].
  intros Hal. apply andb_prop in Hal as [Hhd Hrest].
  apply andb_prop in Hhd as [Hhd _]. apply andb_prop in Hhd as [Hse _].
  apply Z.leb_le in Hse. specialize (IH Hrest).
  assert (0 <= (e - s) / len) by (apply Z.div_pos; lia). lia.
Qed.

(** When the requested sector lies past every part, the search loop runs
    to the end and the offset keeps its initial value. *)
Lemma frag_locate_past_end (parts : list (Z * Z)) (len sector current : Z) :
  0 < len -> parts_aligned parts len = true ->
  current + frag_total_sectors parts len <= sector ->
  frag_locate parts len sector current = ROk None.
Proof.
  intros Hlen. revert current.
  induction parts as [|[s e] rest IH]; intros current Hal Hbeyond; [reflexivity|].
  simpl in Hal, Hbeyond |- *.
  apply andb_prop in Hal as [Hhd Hrest].
  apply andb_prop in Hhd as [Hhd Hsm]. apply andb_prop in Hhd as [Hse Hem].
  apply Z.leb_le in Hse. apply Z.eqb_eq in Hem. apply Z.eqb_eq in Hsm.
  pose proof (frag_total_sectors_nonneg rest len Hlen Hrest) as Hnn.
  destruct (e <? s) eqn:E; [apply Z.ltb_lt in E; lia|].
  unfold rust_rem. destruct (len =? 0) eqn:E0; [apply Z.eqb_eq in E0; lia|].
  simpl. rewrite Hem, Hsm. simpl.
  destruct (current + (e - s) / len >? sector) eqn:E1; [apply Z.gtb_lt in E1; lia|].
  apply IH; [exact Hrest | lia].
Qed.

Lemma bind_not_index_err {A B} (m : res A) (k : A -> res B) :
  is_sector_index_err m = false -> (forall a, is_sector_index_err (k a) = false) ->
  is_sector_index_err (bind m k) = false.
Proof. destruct m; simpl; auto. Qed.

Lemma frag_locate_not_index_err (parts : list (Z * Z)) (len sector current : Z) :
  is_sector_index_err (frag_locate parts len sector current) = false.
Proof.
  revert current. induction parts as [|[s e] rest IH]; intros current; [reflexivity|].
  simpl. destruct (e <? s); [reflexivity|].
  unfold rust_rem. destruct (len =? 0); [reflexivity|]. simpl.
  destruct (negb _ || negb _); [reflexivity|].
  destruct (_ >? _); [reflexivity | apply IH].
Qed.

Lemma frag_fix_err_not_index_err {A} (fs : FragmentedSubDisk) (r : res A) :
  is_sector_index_err r = false -> is_sector_index_err (frag_fix_err fs r) = false.
Proof. destruct r as [|[]|]; simpl; auto. Qed.

Lemma md_read_not_index_err (d : MemDisk) (sector len : Z) :
  is_sector_index_err (md_read_sector d sector len) = false.
Proof.
  unfold md_read_sector.
  destruct (negb _); [reflexivity|]. destruct (negb _); [reflexivity|].
  destruct (_ >? _); reflexivity.
Qed.

Lemma md_write_not_index_err (d : MemDisk) (sector : Z) (buf : list Z) :
  is_sector_index_err (md_write_sector d sector buf) = false.
Proof.
  unfold md_write_sector.
  destruct (negb _); [reflexivity|]. destruct (negb _); [reflexivity|].
  destruct (_ >? _); reflexivity.
Qed.

Lemma frag_translate_not_index_err (parent : option DiskWrapper)
    (fs : FragmentedSubDisk) (perm_ok : bool) (sector len : Z) :
  fs_parts fs <> [] ->
  is_sector_index_err (frag_translate parent fs perm_ok sector len) = false.
Proof.
  intros Hne. unfold frag_translate.
  destruct parent as [p|]; [|reflexivity].
  destruct (negb perm_ok); [reflexivity|].
  destruct (fs_parts fs) as [|[s0 e0] rest] eqn:Hp; [congruence|].
  destruct (negb _); [reflexivity|].
  apply bind_not_index_err.
  - apply frag_fix_err_not_index_err. rewrite <- Hp. apply frag_locate_not_index_err.
  - intros o. unfold rust_div. destruct (len =? 0); reflexivity.
Qed.

(** C10: for a fragmented view with at least one part, no read or write
    answers [InvalidSectorIndex]; and a request whose sector index is at
    or past the view's sector count, with a buffer length that passes the
    sector-size checks, is forwarded to the backing disk as sector 0. *)
Theorem C10_fragmented_past_end_hits_sector0 (fs : FragmentedSubDisk) :
  fs_parts fs <> [] ->
  (forall parent sector len buf,
      is_sector_index_err (frag_read_sector parent fs sector len) = false
      /\ is_sector_index_err (frag_write_sector parent fs sector buf) = false)
  /\ (forall (p : DiskWrapper) (sector len : Z),
        0 < len ->
        is_supported (fs_sector_size fs) len (fs_size fs) = true ->
        parts_aligned (fs_parts fs) len = true ->
        frag_total_sectors (fs_parts fs) len <= sector ->
        (read (fs_permissions fs) = true ->
         frag_read_sector (Some p) fs sector len = md_read_sector (dw_disk p) 0 len)
        /\ (forall buf, Z.of_nat (length buf) = len -> write (fs_permissions fs) = true ->
            frag_write_sector (Some p) fs sector buf = md_write_sector (dw_disk p) 0 buf)).
Proof.
  intros Hne. split.
  - intros parent sector len buf. split.
    + unfold frag_read_sector. apply bind_not_index_err;
        [now apply frag_translate_not_index_err | intros; apply md_read_not_index_err].
    + unfold frag_write_sector. apply bind_not_index_err;
        [now apply frag_translate_not_index_err | intros; apply md_write_not_index_err].
  - intros p sector len Hlen Hsup Hal Hbeyond.
    assert (Htr : forall perm_ok, perm_ok = true ->
                  frag_translate (Some p) fs perm_ok sector len = ROk (p, 0)).
    { intros perm_ok ->. unfold frag_translate. simpl negb. cbv iota.
      destruct (fs_parts fs) as [|[s0 e0] rest] eqn:Hp; [congruence|].
      rewrite Hsup. simpl negb. cbv iota.
      rewrite <- Hp, frag_locate_past_end; [| lia | rewrite Hp; exact Hal | rewrite Hp; lia].
      simpl. unfold rust_div.
      destruct (len =? 0) eqn:E0; [apply Z.eqb_eq in E0; lia|].
      now rewrite Z.div_0_l by lia. }
    split.
    + intros Hr. unfold frag_read_sector. now rewrite Htr.
    + intros buf Hbuf Hw. unfold frag_write_sector. rewrite Hbuf. now rewrite Htr.
Qed.

Lemma C10_fragmented_past_end_hits_sector0_witness :
  let fs := mkFragmentedSubDisk [(0, 512); (1024, 1536)] 1024 Any read_write in
  let p := dw_new (blank_disk Any 4096) in
  frag_read_sector (Some p) fs 2 512 = md_read_sector (dw_disk p) 0 512.
Proof.
  intros fs p.
  assert (Hne : fs_parts fs <> []) by discriminate.
  apply (proj2 (C10_fragmented_past_end_hits_sector0 fs Hne) p 2 512);
    [lia | reflexivity | reflexivity | vm_compute; discriminate | reflexivity].
Defined.

(* ================================================================== *)
(** * Further properties of the code *)

Lemma map_nth_seq_self (l : list Z) :
  map (fun i => nth i l 0) (seq 0 (length l)) = l.
Proof.
  induction l as [|x l IH]; [reflexivity|].
  simpl. f_equal. rewrite <- seq_shift, map_map. exact IH.
Qed.

Lemma md_write_content (d d' : MemDisk) (sector : Z) (buf : list Z) :
  md_write_sector d sector buf = ROk d' ->
  md_sector_size d' = md_sector_size d /\ md_permissions d' = md_permissions d
  /\ md_len d' = md_len d
  /\ write (md_permissions d) = true
  /\ is_supported (md_sector_size d) (Z.of_nat (length buf)) (md_len d) = true
  /\ (sector + 1) * Z.of_nat (length buf) <= md_len d
  /\ forall i, md_content d' i =
       if (sector * Z.of_nat (length buf) <=? i)
          && (i <? sector * Z.of_nat (length buf) + Z.of_nat (length buf))
       then nth (Z.to_nat (i - sector * Z.of_nat (length buf))) buf 0
       else md_content d i.
Proof.
  unfold md_write_sector.
  destruct (write (md_permissions d)) eqn:Hw; [|discriminate].
  destruct (is_supported _ _ _) eqn:Hs; [|discriminate].
  destruct (_ >? _) eqn:Hp; [discriminate|].
  intro H; injection H as <-; simpl.
  repeat split; auto. lia.
Qed.

Lemma md_write_read_back (d d' : MemDisk) (sector : Z) (buf : list Z) :
  md_write_sector d sector buf = ROk d' ->
  read (md_permissions d) = true ->
  md_read_sector d' sector (Z.of_nat (length buf)) = ROk buf.
Proof.
  intros Hw Hr.
  destruct (md_write_content _ _ _ _ Hw) as (Hss & Hpm & Hlen & _ & Hsup & Hb & Hc).
  unfold md_read_sector. rewrite Hpm, Hr, Hss, Hlen, Hsup. simpl.
  destruct (_ >? _) eqn:Hp; [lia|].
  f_equal. unfold md_slice. rewrite Nat2Z.id.
  rewrite <- (map_nth_seq_self buf) at 2.
  apply map_ext_in. intros i Hi. apply in_seq in Hi.
  rewrite Hc.
  replace ((sector * Z.of_nat (length buf) <=? sector * Z.of_nat (length buf) + Z.of_nat i)
    && (sector * Z.of_nat (length buf) + Z.of_nat i <?
        sector * Z.of_nat (length buf) + Z.of_nat (length buf))) with true
    by (symmetry; apply andb_true_intro; split; [apply Z.leb_le | apply Z.ltb_lt]; lia).
  f_equal. lia.
Qed.


(* borrow registry *)
Lemma position_some (p : Z * Z) (l : list (Z * Z)) (idx : nat) :
  position p l = Some idx -> (idx < length l)%nat /\ nth idx l (0, 0) = p.
Proof.
  revert idx. induction l as [|x l IH]; simpl; intros idx H; [discriminate|].
  destruct ((fst x =? fst p) && (snd x =? snd p)) eqn:E.
  - injection H as <-. apply andb_true_iff in E as [E1 E2].
    apply Z.eqb_eq in E1, E2. split; [lia|]. destruct x, p; simpl in *; congruence.
  - destruct (position p l) as [i|] eqn:Hp; [|discriminate].
    simpl in H. injection H as <-. destruct (IH i eq_refl). simpl. split; [lia|assumption].
Qed.

Lemma position_in (p : Z * Z) (l : list (Z * Z)) :
  In p l -> exists idx, position p l = Some idx.
Proof.
  induction l as [|x l IH]; simpl; intros H; [contradiction|].
  destruct ((fst x =? fst p) && (snd x =? snd p)) eqn:E; [eauto|].
  destruct H as [->|H].
  - rewrite !Z.eqb_refl in E. discriminate.
  - destruct (IH H) as [i ->]. simpl. eauto.
Qed.

Lemma swap_remove_snoc_last (R : list (Z * Z)) (y : Z * Z) :
  swap_remove (R ++ [y]) (length R) = R.
Proof.
  unfold swap_remove. rewrite length_app, Nat.add_1_r, Nat.eqb_refl.
  apply removelast_last.
Qed.

Lemma swap_remove_snoc_inner (R : list (Z * Z)) (y : Z * Z) (idx : nat) :
  (idx < length R)%nat ->
  swap_remove (R ++ [y]) idx = firstn idx R ++ [y] ++ skipn (S idx) R.
Proof.
  intros H. unfold swap_remove. rewrite length_app.
  replace (Nat.eqb (S idx) (length R + length [y])) with false
    by (symmetry; apply Nat.eqb_neq; simpl; lia).
  rewrite removelast_last, last_last, firstn_app.
  replace (idx - length R)%nat with O by lia. rewrite app_nil_r. reflexivity.
Qed.

Lemma swap_remove_perm (l : list (Z * Z)) (idx : nat) :
  (idx < length l)%nat -> Permutation l (nth idx l (0, 0) :: swap_remove l idx).
Proof.
  intros H. destruct l as [|x0 l0]; [simpl in H; lia|].
  destruct (exists_last (l := x0 :: l0) ltac:(discriminate)) as [R [y Hl]].
  rewrite Hl in *. rewrite length_app in H. simpl in H.
  destruct (Nat.eq_dec idx (length R)) as [->|Hne].
  - rewrite swap_remove_snoc_last, app_nth2, Nat.sub_diag by lia. simpl.
    apply Permutation_sym, Permutation_cons_append.
  - rewrite swap_remove_snoc_inner by lia. rewrite app_nth1 by lia.
    destruct (nth_split R (0, 0) (n := idx) ltac:(lia)) as (A & B & HR & HA).
    subst idx. rewrite HR.
    rewrite firstn_app, Nat.sub_diag, firstn_all, firstn_O, app_nil_r.
    rewrite skipn_app, skipn_all2 by lia.
    replace (S (length A) - length A)%nat with 1%nat by lia.
    rewrite app_nth2, Nat.sub_diag by lia. simpl.
    rewrite <- app_assoc. simpl.
    eapply Permutation_trans; [apply Permutation_sym, Permutation_middle|].
    apply perm_skip. apply Permutation_app_head.
    apply Permutation_sym, Permutation_cons_append.
Qed.

Lemma remove_loan_perm (p : Z * Z) (l l' : list (Z * Z)) :
  Permutation l' (p :: l) ->
  exists l'', remove_loan p l' = ROk l'' /\ Permutation l'' l.
Proof.
  intros HP. unfold remove_loan.
  destruct (position_in p l') as [idx Hidx].
  { apply (Permutation_in p (Permutation_sym HP)). left; reflexivity. }
  rewrite Hidx. eexists; split; [reflexivity|].
  destruct (position_some _ _ _ Hidx) as [Hlt Hn].
  pose proof (swap_remove_perm l' idx Hlt) as HS. rewrite Hn in HS.
  apply (Permutation_cons_inv (a := p)).
  eapply Permutation_trans; [apply Permutation_sym, HS|exact HP].
Qed.

Lemma remove_loans_perm (ps l l' : list (Z * Z)) :
  Permutation l' (l ++ ps) ->
  exists l'', remove_loans ps l' = ROk l'' /\ Permutation l'' l.
Proof.
  revert l'. induction ps as [|p ps IH]; simpl; intros l' HP.
  - exists l'. rewrite app_nil_r in HP. auto.
  - destruct (remove_loan_perm p (l ++ ps) l') as [l1 [-> H1]].
    { eapply Permutation_trans; [exact HP|]. apply Permutation_sym, Permutation_middle. }
    simpl. apply IH. exact H1.
Qed.

(** Registry: dropping a [SubDisk] right after [subdisk] issued it takes
    its loans out again; the read and write loan lists are those of
    before the call, up to order ([swap_remove] moves the last loan). *)
Theorem subdisk_drop_restores_loans (w w' : DiskWrapper) (sd : SubDisk)
    (start end_ : Z) (perm : Permissions) :
  subdisk w start end_ perm = ROk (sd, w') ->
  exists w'', subdisk_drop w' sd = ROk w''
    /\ dw_disk w'' = dw_disk w
    /\ Permutation (r_borrows w'') (r_borrows w)
    /\ Permutation (w_borrows w'') (w_borrows w).
Proof.
  unfold subdisk.
  destruct (_ || _); [discriminate|]. destruct (_ >? _); [discriminate|].
  intro H; injection H as <- <-. unfold subdisk_drop. simpl.
  destruct (read perm) eqn:Hr.
  - destruct (remove_loan_perm (start, end_) (r_borrows w) (r_borrows w ++ [(start, end_)]))
      as [r [-> Hpr]].
    { apply Permutation_sym, Permutation_cons_append. }
    simpl. destruct (write perm).
    + destruct (remove_loan_perm (start, end_) (w_borrows w) (w_borrows w ++ [(start, end_)]))
        as [wb [-> Hpw]].
      { apply Permutation_sym, Permutation_cons_append. }
      simpl. eexists; repeat split; eauto.
    + simpl. eexists; repeat split; eauto.
  - simpl. destruct (write perm).
    + destruct (remove_loan_perm (start, end_) (w_borrows w) (w_borrows w ++ [(start, end_)]))
        as [wb [-> Hpw]].
      { apply Permutation_sym, Permutation_cons_append. }
      simpl. eexists; repeat split; eauto.
    + simpl. eexists; repeat split; eauto.
Qed.

(** Registry: the same for a [FragmentedSubDisk]: its drop removes each
    of its parts from the loan lists it was registered in, leaving the
    loans of before [fragmented_subdisk] up to order. *)
Theorem frag_drop_restores_loans (w w' : DiskWrapper) (fs : FragmentedSubDisk)
    (parts : list (Z * Z)) (perm : Permissions) :
  fragmented_subdisk w parts perm = ROk (fs, w') ->
  exists w'', frag_drop w' fs = ROk w''
    /\ dw_disk w'' = dw_disk w
    /\ Permutation (r_borrows w'') (r_borrows w)
    /\ Permutation (w_borrows w'') (w_borrows w).
Proof.
  unfold fragmented_subdisk.
  destruct (frag_parts_check _ _ _ _ _ _); simpl; try discriminate.
  intro H; injection H as <- <-. unfold frag_drop. simpl.
  assert (Hr : exists r, (if read perm then remove_loans parts
                            (if read perm then r_borrows w ++ parts else r_borrows w)
                          else ROk (if read perm then r_borrows w ++ parts else r_borrows w))
                         = ROk r /\ Permutation r (r_borrows w)).
  { destruct (read perm); [apply remove_loans_perm; reflexivity|eauto]. }
  assert (Hw : exists wb, (if write perm then remove_loans parts
                            (if write perm then w_borrows w ++ parts else w_borrows w)
                          else ROk (if write perm then w_borrows w ++ parts else w_borrows w))
                         = ROk wb /\ Permutation wb (w_borrows w)).
  { destruct (write perm); [apply remove_loans_perm; reflexivity|eauto]. }
  destruct Hr as [r [-> Hpr]]. destruct Hw as [wb [-> Hpw]]. simpl.
  eexists; repeat split; eauto.
Qed.


Lemma minimal_ge_allof_spec (l : list Z) (s : Z) (m : option Z) :
  (forall w, m = Some w -> s < w) ->
  match minimal_ge_allof l s m with
  | Some v => (m = Some v \/ In v l) /\ s <= v
              /\ (forall x, In x l -> s <= x -> v <= x)
              /\ (forall w, m = Some w -> v <= w)
  | None => m = None /\ forall x, In x l -> x < s
  end.
Proof.
  revert m. induction l as [|i l IH]; simpl; intros m Hm.
  - destruct m as [w|]; [|split; [reflexivity|intros x []]].
    pose proof (Hm w eq_refl). split; [left; reflexivity|]. split; [lia|].
    split; [intros x []|]. intros w' Hw'; injection Hw' as <-; lia.
  - destruct (i =? s) eqn:Eis.
    + apply Z.eqb_eq in Eis; subst i. split; [right; left; reflexivity|].
      split; [lia|]. split; [intros; lia|]. intros w Hw. specialize (Hm w Hw). lia.
    + apply Z.eqb_neq in Eis.
      set (m' := if (i >? s) && match m with None => true | Some m0 => i <? m0 end
                 then Some i else m).
      assert (Hm' : forall w, m' = Some w -> s < w).
      { unfold m'. intros w. destruct (_ && _) eqn:E.
        - apply andb_true_iff in E as [E _]. apply Z.gtb_lt in E.
          intros H; injection H as <-; lia.
        - apply Hm. }
      specialize (IH m' Hm').
      destruct (minimal_ge_allof l s m') as [v|] eqn:Hv.
      * destruct IH as (Hin & Hsv & Hmin & Hmw).
        unfold m' in *. destruct ((i >? s) && _) eqn:E.
        -- apply andb_true_iff in E as [E1 E2]. apply Z.gtb_lt in E1.
           specialize (Hmw i eq_refl).
           split; [destruct Hin as [H|H]; [injection H as <-; right; left; reflexivity
                                             |right; right; exact H]|].
           split; [exact Hsv|]. split.
           ++ intros x [<-|Hx] Hx'; [exact Hmw|apply Hmin; assumption].
           ++ intros w Hw. subst m. apply Z.ltb_lt in E2. lia.
        -- split; [destruct Hin as [H|H]; [left; exact H|right; right; exact H]|].
           split; [exact Hsv|]. split.
           ++ intros x [<-|Hx] Hx'; [|apply Hmin; assumption].
              destruct (i >? s) eqn:Exs; simpl in E.
              ** destruct m as [m0|]; [|discriminate].
                 apply Z.ltb_ge in E. specialize (Hmw m0 eq_refl). lia.
              ** rewrite Z.gtb_ltb, Z.ltb_ge in Exs. lia.
           ++ exact Hmw.
      * destruct IH as [Hn Hall]. unfold m' in Hn.
        destruct ((i >? s) && _) eqn:E; [discriminate|].
        split; [exact Hn|]. intros x [<-|Hx]; [|apply Hall, Hx].
        subst m. simpl in E. rewrite andb_true_r in E. rewrite Z.gtb_ltb, Z.ltb_ge in E. lia.
Qed.

(** [SectorSize::minimal_ge] on [AllOf l]: the result is the least
    element of [l] that is at least [sector_size], and [None] exactly when
    every element of [l] is below it. *)
Theorem minimal_ge_allof_least (l : list Z) (sector_size r : Z) :
  (minimal_ge (AllOf l) sector_size = Some r <->
   In r l /\ sector_size <= r /\ forall x, In x l -> sector_size <= x -> r <= x)
  /\ (minimal_ge (AllOf l) sector_size = None <->
      forall x, In x l -> x < sector_size).
Proof.
  simpl. pose proof (minimal_ge_allof_spec l sector_size None ltac:(discriminate)) as H.
  destruct (minimal_ge_allof l sector_size None) as [v|].
  - destruct H as ([H|Hin] & Hsv & Hmin & _); [discriminate|]. split; split.
    + intros E; injection E as <-. auto.
    + intros (Hr & Hsr & Hrmin). f_equal.
      specialize (Hmin r Hr Hsr). specialize (Hrmin v Hin Hsv). lia.
    + discriminate.
    + intros Hall. specialize (Hall v Hin). lia.
  - destruct H as [_ Hall]. split; split.
    + discriminate.
    + intros (Hr & Hsr & _). specialize (Hall r Hr). lia.
    + auto.
    + auto.
Qed.

Lemma minimal_ge_inranges_fold (rs : list (Z * Z)) (s : Z) (m : option Z) :
  match fold_left
    (fun min r =>
       let '(start, end_) := r in
       if end_ <=? s then min
       else
         let v := if s <? start then start else s in
         match min with
         | Some m => if v <? m then Some v else min
         | None => Some v
         end) rs m with
  | Some v => (m = Some v \/ exists rg, In rg rs /\ s < snd rg /\ v = Z.max s (fst rg))
              /\ (forall w, m = Some w -> v <= w)
              /\ (forall rg, In rg rs -> s < snd rg -> v <= Z.max s (fst rg))
  | None => m = None /\ forall rg, In rg rs -> snd rg <= s
  end.
Proof.
  revert m. induction rs as [|[st en] rs IH]; simpl; intros m.
  - destruct m as [w|].
    + split; [left; reflexivity|]. split; [intros w' H; injection H as <-; lia|]. intros _ [].
    + split; [reflexivity|]. intros _ [].
  - set (v := if s <? st then st else s).
    assert (Hv : v = Z.max s st) by (unfold v; destruct (Z.ltb_spec s st); lia).
    set (m' := if en <=? s then m
               else match m with Some m0 => if v <? m0 then Some v else m | None => Some v end).
    specialize (IH m'). fold v. fold m'.
    destruct (fold_left _ rs m') as [u|] eqn:Hu.
    + destruct IH as (Hsrc & Hle & Hmin).
      unfold m' in *. destruct (Z.leb_spec en s) as [Hes|Hes].
      * split; [destruct Hsrc as [H|(rg & Hrg & H1 & H2)];
                 [left; exact H|right; exists rg; auto]|].
        split; [exact Hle|].
        intros rg [<-|Hrg] Hs; simpl in *; [lia|auto].
      * destruct m as [m0|].
        -- destruct (Z.ltb_spec v m0) as [Hvm|Hvm].
           ++ specialize (Hle v eq_refl).
              split; [destruct Hsrc as [H|(rg & Hrg & H1 & H2)];
                      [injection H as <-; right; exists (st, en); simpl; auto
                      |right; exists rg; auto]|].
              split; [intros w H; injection H as <-; lia|].
              intros rg [<-|Hrg] Hs; simpl in *; [lia|auto].
           ++ specialize (Hle m0 eq_refl).
              split; [destruct Hsrc as [H|(rg & Hrg & H1 & H2)];
                      [left; exact H|right; exists rg; auto]|].
              split; [intros w H; injection H as <-; exact Hle|].
              intros rg [<-|Hrg] Hs; simpl in *; [lia|auto].
        -- specialize (Hle v eq_refl).
           split; [destruct Hsrc as [H|(rg & Hrg & H1 & H2)];
                   [injection H as <-; right; exists (st, en); simpl; auto
                   |right; exists rg; auto]|].
           split; [discriminate|].
           intros rg [<-|Hrg] Hs; simpl in *; [lia|auto].
    + destruct IH as [Hn Hall]. unfold m' in Hn.
      destruct (Z.leb_spec en s) as [Hes|Hes].
      * split; [exact Hn|]. intros rg [<-|Hrg]; simpl; [lia|auto].
      * destruct m as [m0|]; [destruct (v <? m0); discriminate|discriminate].
Qed.

Lemma existsb_in_range (x : Z) (rs : list (Z * Z)) :
  existsb (in_range x) rs = true <-> exists rg, In rg rs /\ fst rg <= x < snd rg.
Proof.
  rewrite existsb_exists. unfold in_range.
  split; intros (rg & Hrg & H); exists rg; split; auto.
  - apply andb_true_iff in H as [H1 H2]. apply Z.leb_le in H1. apply Z.ltb_lt in H2. lia.
  - apply andb_true_iff. split; [apply Z.leb_le|apply Z.ltb_lt]; lia.
Qed.

(** [SectorSize::minimal_ge] on [InRanges rs] with non-empty ranges: the
    result is the least value [>= sector_size] inside some range, and
    [None] exactly when no such value exists. *)
Theorem minimal_ge_inranges_least (rs : list (Z * Z)) (sector_size r : Z) :
  Forall (fun rg => fst rg < snd rg) rs ->
  (minimal_ge (InRanges rs) sector_size = Some r <->
   existsb (in_range r) rs = true /\ sector_size <= r
   /\ forall x, existsb (in_range x) rs = true -> sector_size <= x -> r <= x)
  /\ (minimal_ge (InRanges rs) sector_size = None <->
      forall x, sector_size <= x -> existsb (in_range x) rs = false).
Proof.
  intros Hwf. rewrite Forall_forall in Hwf. simpl. unfold minimal_ge_inranges.
  pose proof (minimal_ge_inranges_fold rs sector_size None) as H.
  destruct (fold_left _ rs None) as [v|].
  - destruct H as ([H|(rg & Hrg & H1 & ->)] & _ & Hmin); [discriminate|].
    pose proof (Hwf rg Hrg) as Hne.
    assert (Hvin : existsb (in_range (Z.max sector_size (fst rg))) rs = true)
      by (apply existsb_in_range; exists rg; split; [exact Hrg|lia]).
    assert (Hvmin : forall x, existsb (in_range x) rs = true -> sector_size <= x ->
                              Z.max sector_size (fst rg) <= x).
    { intros x Hx Hsx. apply existsb_in_range in Hx as (rg' & Hrg' & Hx).
      specialize (Hmin rg' Hrg' ltac:(lia)). lia. }
    split; split.
    + intros E; injection E as <-. split; [exact Hvin|]. split; [lia|exact Hvmin].
    + intros (Hr & Hsr & Hrmin). f_equal.
      specialize (Hvmin r Hr Hsr). specialize (Hrmin (Z.max sector_size (fst rg)) Hvin ltac:(lia)). lia.
    + discriminate.
    + intros Hall. rewrite (Hall (Z.max sector_size (fst rg)) ltac:(lia)) in Hvin. discriminate.
  - destruct H as [_ Hall].
    assert (Hno : forall x, sector_size <= x -> existsb (in_range x) rs = false).
    { intros x Hx. destruct (existsb (in_range x) rs) eqn:E; [|reflexivity].
      apply existsb_in_range in E as (rg & Hrg & Hin). specialize (Hall rg Hrg). lia. }
    split; split.
    + discriminate.
    + intros (Hr & Hsr & _). rewrite (Hno r Hsr) in Hr. discriminate.
    + intros _. exact Hno.
    + reflexivity.
Qed.

Lemma insert_sorted_in (x y : Z) (l : list Z) :
  In y (insert_sorted x l) <-> In y (x :: l).
Proof.
  induction l as [|z l IH]; simpl.
  - tauto.
  - destruct (x <=? z); simpl; [tauto|]. rewrite IH. simpl. tauto.
Qed.

Lemma insert_sorted_sorted (x : Z) (l : list Z) :
  StronglySorted Z.le l -> StronglySorted Z.le (insert_sorted x l).
Proof.
  induction l as [|z l IH]; simpl; intros Hs.
  - repeat constructor.
  - inversion Hs as [|? ? Hl Hall]; subst. rewrite Forall_forall in Hall.
    destruct (Z.leb_spec x z) as [Hxz|Hxz].
    + constructor; [exact Hs|]. apply Forall_forall. intros y [<-|Hy]; [lia|].
      specialize (Hall y Hy). lia.
    + constructor; [apply IH, Hl|]. apply Forall_forall. intros y Hy.
      apply insert_sorted_in in Hy as [<-|Hy]; [lia|auto].
Qed.


Lemma sort_unstable_sorted (l : list Z) : StronglySorted Z.le (sort_unstable l).
Proof.
  unfold sort_unstable. induction l as [|x l IH]; simpl.
  - constructor.
  - apply insert_sorted_sorted, IH.
Qed.

Lemma minimal_ge_anyexcept_spec (v : list Z) (min : Z) :
  StronglySorted Z.le v ->
  min <= minimal_ge_anyexcept v min
  /\ ~ In (minimal_ge_anyexcept v min) v
  /\ forall x, min <= x < minimal_ge_anyexcept v min -> In x v.
Proof.
  revert min. induction v as [|i v IH]; simpl; intros min Hs.
  - split; [lia|]. split; [tauto|]. intros; lia.
  - inversion Hs as [|? ? Hv Hall]; subst. rewrite Forall_forall in Hall.
    destruct (Z.eqb_spec i min) as [->|Hne].
    + destruct (IH (min + 1) Hv) as (H1 & H2 & H3).
      split; [lia|]. split.
      * intros [H|H]; [lia|contradiction].
      * intros x Hx. destruct (Z.eq_dec x min) as [->|Hxm]; [left; reflexivity|].
        right. apply H3. lia.
    + destruct (Z.gtb_spec i min) as [Hgt|Hle].
      * split; [lia|]. split; [|intros; lia].
        intros [H|H]; [lia|]. specialize (Hall min H). lia.
      * destruct (IH min Hv) as (H1 & H2 & H3).
        split; [exact H1|]. split.
        -- intros [H|H]; [lia|contradiction].
        -- intros x Hx. right. apply H3, Hx.
Qed.


(* AnyExceptRanges *)
Lemma anyexceptranges_fold (rs : list (Z * Z)) (min : Z) (ins : bool) (b0 : Z) :
  let '(ins', b') :=
    fold_left
      (fun acc r =>
         let '(inside, bump_to) := acc in
         if in_range min r then (true, Z.max bump_to (snd r)) else (inside, bump_to))
      rs (ins, b0) in
  (ins' = true <-> ins = true \/ exists rg, In rg rs /\ in_range min rg = true)
  /\ b0 <= b'
  /\ (forall rg, In rg rs -> in_range min rg = true -> snd rg <= b')
  /\ (b' = b0 \/ exists rg, In rg rs /\ in_range min rg = true /\ b' = snd rg).
Proof.
  revert ins b0. induction rs as [|rg rs IH]; simpl; intros ins b0.
  - split; [split; [auto|intros [H|(rg & [] & _)]; exact H]|].
    split; [lia|]. split; [intros _ []|]. left; reflexivity.
  - destruct (in_range min rg) eqn:Hin.
    + specialize (IH true (Z.max b0 (snd rg))).
      destruct (fold_left _ rs _) as [ins' b'].
      destruct IH as (Hi & Hb & Hall & Hsrc).
      split; [split; [intros _; right; exists rg; auto|intros _; apply Hi; left; reflexivity]|].
      split; [lia|]. split.
      * intros rg' [<-|H] H'; [lia|auto].
      * destruct Hsrc as [->|(rg' & H1 & H2 & H3)].
        -- destruct (Z.max_spec b0 (snd rg)) as [[_ ->]|[_ ->]];
             [right; exists rg; auto|left; reflexivity].
        -- right; exists rg'; auto.
    + specialize (IH ins b0).
      destruct (fold_left _ rs _) as [ins' b'].
      destruct IH as (Hi & Hb & Hall & Hsrc).
      split; [rewrite Hi; split; intros [H|(rg' & H1 & H2)]; auto;
              [right; exists rg'; auto|destruct H1 as [<-|H1];
                                         [congruence|right; exists rg'; auto]]|].
      split; [exact Hb|]. split.
      * intros rg' [<-|H] H'; [congruence|auto].
      * destruct Hsrc as [H|(rg' & H1 & H2 & H3)]; [left; exact H|right; exists rg'; auto].
Qed.

Lemma in_range_iff (x : Z) (rg : Z * Z) : in_range x rg = true <-> fst rg <= x < snd rg.
Proof.
  unfold in_range. rewrite andb_true_iff, Z.leb_le, Z.ltb_lt. tauto.
Qed.

Lemma anyexceptranges_step_some (rs : list (Z * Z)) (min b : Z) :
  anyexceptranges_step rs min = Some b ->
  min < b
  /\ (forall x, min <= x < b -> existsb (in_range x) rs = true)
  /\ (forall rg, In rg rs -> in_range min rg = true -> snd rg <= b)
  /\ exists rg, In rg rs /\ in_range min rg = true.
Proof.
  unfold anyexceptranges_step.
  pose proof (anyexceptranges_fold rs min false (min + 1)) as H.
  destruct (fold_left _ rs _) as [ins b'].
  destruct H as (Hi & Hb & Hall & Hsrc).
  destruct ins; [|discriminate]. intros E; injection E as <-.
  destruct (proj1 Hi eq_refl) as [H|Hex]; [discriminate|].
  split; [lia|]. split; [|split; [exact Hall|exact Hex]].
  intros x Hx. apply existsb_exists.
  destruct Hsrc as [->|(rg & Hrg & Hin & ->)].
  - assert (x = min) as -> by lia. destruct Hex as (rg & ? & ?). eauto.
  - exists rg. split; [exact Hrg|]. apply in_range_iff. apply in_range_iff in Hin. lia.
Qed.

Lemma anyexceptranges_step_none (rs : list (Z * Z)) (min : Z) :
  anyexceptranges_step rs min = None -> existsb (in_range min) rs = false.
Proof.
  unfold anyexceptranges_step.
  pose proof (anyexceptranges_fold rs min false (min + 1)) as H.
  destruct (fold_left _ rs _) as [ins b'].
  destruct H as (Hi & _). destruct ins; [discriminate|]. intros _.
  destruct (existsb (in_range min) rs) eqn:E; [|reflexivity].
  apply existsb_exists in E as (rg & ? & ?).
  assert (false = true) by (apply Hi; right; eauto). discriminate.
Qed.

Lemma anyexceptranges_loop_spec (fuel : nat) (rs : list (Z * Z)) (min r : Z) :
  anyexceptranges_loop fuel rs min = Some r ->
  min <= r /\ existsb (in_range r) rs = false
  /\ forall x, min <= x < r -> existsb (in_range x) rs = true.
Proof.
  revert min. induction fuel as [|fuel IH]; simpl; intros min H; [discriminate|].
  destruct (anyexceptranges_step rs min) as [b|] eqn:Hs.
  - destruct (anyexceptranges_step_some _ _ _ Hs) as (Hmb & Hcov & _).
    destruct (IH b H) as (H1 & H2 & H3).
    split; [lia|]. split; [exact H2|].
    intros x Hx. destruct (Z.ltb_spec x b); [apply Hcov; lia|apply H3; lia].
  - injection H as <-. split; [lia|]. split; [apply anyexceptranges_step_none, Hs|].
    intros; lia.
Qed.








(** SubDisk: after a successful [write_sector], [read_sector] of the same
    sector and length through the same view returns the written bytes,
    when the view and the disk are readable. *)
Theorem subdisk_write_read_back (p : DiskWrapper) (sd : SubDisk) (sector : Z)
    (buf : list Z) (d' : MemDisk) :
  subdisk_write_sector (Some p) sd sector buf = ROk d' ->
  read (sd_permissions sd) = true ->
  read (md_permissions (dw_disk p)) = true ->
  subdisk_read_sector (Some (mkDiskWrapper d' (r_borrows p) (w_borrows p))) sd sector
    (Z.of_nat (length buf)) = ROk buf.
Proof.
  unfold subdisk_write_sector, subdisk_read_sector.
  destruct (subdisk_translate _ _ _ _ _) as [[q s]| |] eqn:Ht; simpl; try discriminate.
  intros Hw Hr Hrd.
  unfold subdisk_translate in *. rewrite Hr. simpl.
  destruct (write (sd_permissions sd)); simpl in Ht; [|discriminate].
  destruct (_ || _); [discriminate|].
  destruct (_ >=? _); [destruct (rust_div _ _); discriminate|].
  destruct (rust_div _ _); simpl in *; try discriminate.
  injection Ht as <- <-. simpl.
  apply (md_write_read_back _ _ _ _ Hw Hrd).
Qed.

Lemma frag_locate_some (parts : list (Z * Z)) (ss sector cur off : Z) :
  0 <= ss ->
  frag_locate parts ss sector cur = ROk (Some off) -> cur <= sector ->
  exists part, In part parts /\ fst part <= off /\ off + ss <= snd part
               /\ off mod ss = 0.
Proof.
  intros Hss. revert cur.
  induction parts as [|[st en] parts IH]; simpl; intros cur H Hc; [discriminate|].
  destruct (en <? st) eqn:Hes; [discriminate|]. apply Z.ltb_ge in Hes.
  unfold rust_rem in H. destruct (Z.eqb_spec ss 0) as [|Hne]; [discriminate|]. simpl in H.
  destruct (negb ((en - st) mod ss =? 0) || negb (st mod ss =? 0)) eqn:Ea; [discriminate|].
  apply orb_false_iff in Ea as [E1 E2]. apply negb_false_iff, Z.eqb_eq in E1, E2.
  destruct (cur + (en - st) / ss >? sector) eqn:Eg.
  - injection H as <-. exists (st, en). simpl.
    rewrite Z.gtb_ltb in Eg. apply Z.ltb_lt in Eg.
    pose proof (Z.div_mod (en - st) ss Hne) as Hq.
    set (q := (en - st) / ss) in *.
    assert (Hsp : 0 < ss) by lia.
    assert (0 <= (sector - cur) * ss) by nia.
    assert ((sector - cur + 1) * ss <= q * ss) by (apply Z.mul_le_mono_nonneg_r; lia).
    split; [left; reflexivity|]. split; [lia|]. split; [lia|]. rewrite Z.mod_add by lia. exact E2.
  - rewrite Z.gtb_ltb in Eg. apply Z.ltb_ge in Eg.
    destruct (IH _ H Eg) as (part & Hp & Hrest). exists part. split; [right; exact Hp|exact Hrest].
Qed.

Lemma frag_locate_none (parts : list (Z * Z)) (ss sector cur : Z) :
  frag_locate parts ss sector cur = ROk None -> cur <= sector ->
  cur + frag_total_sectors parts ss <= sector.
Proof.
  revert cur.
  induction parts as [|[st en] parts IH]; simpl; intros cur H Hc.
  - lia.
  - destruct (en <? st); [discriminate|].
    unfold rust_rem in H. destruct (ss =? 0); [discriminate|]. simpl in H.
    destruct (_ || _); [discriminate|].
    destruct (cur + (en - st) / ss >? sector) eqn:Eg; [discriminate|].
    rewrite Z.gtb_ltb in Eg. apply Z.ltb_ge in Eg.
    specialize (IH _ H Eg). lia.
Qed.

Lemma frag_fix_err_ok {A} (fs : FragmentedSubDisk) (r : res A) (a : A) :
  frag_fix_err fs r = ROk a -> r = ROk a.
Proof. destruct r as [|e|]; simpl; [auto| destruct e; discriminate | discriminate]. Qed.

(** FragmentedSubDisk: a successful [write_sector] at a sector inside the
    view changes bytes of one part only: the parent disk is unchanged
    outside that part. *)
Theorem frag_write_stays_in_part (p : DiskWrapper) (fs : FragmentedSubDisk) (sector : Z)
    (buf : list Z) (d' : MemDisk) :
  frag_write_sector (Some p) fs sector buf = ROk d' ->
  0 <= sector ->
  sector < frag_total_sectors (fs_parts fs) (Z.of_nat (length buf)) ->
  exists part, In part (fs_parts fs)
    /\ forall i, i < fst part \/ snd part <= i ->
       md_content d' i = md_content (dw_disk p) i.
Proof.
  unfold frag_write_sector, frag_translate.
  set (len := Z.of_nat (length buf)).
  destruct (write (fs_permissions fs)); simpl; [|discriminate].
  destruct (fs_parts fs) as [|[s0 e0] rest] eqn:Hp; [discriminate|].
  lazy beta iota. rewrite <- Hp.
  destruct (is_supported _ _ _); simpl; [|discriminate].
  destruct (frag_fix_err fs (frag_locate (fs_parts fs) len sector 0)) as [o| |] eqn:Hf;
    simpl; try discriminate.
  apply frag_fix_err_ok in Hf.
  intros Hw Hsec Htot.
  destruct o as [off|].
  - unfold rust_div in Hw. destruct (Z.eqb_spec len 0) as [|Hne]; [discriminate|].
    simpl in Hw.
    destruct (frag_locate_some (fs_parts fs) len sector 0 off ltac:(unfold len; lia) Hf Hsec)
      as (part & Hin & H1 & H2 & H3).
    exists part. split; [exact Hin|]. intros i Hi.
    destruct (md_write_content _ _ _ _ Hw) as (_ & _ & _ & _ & _ & _ & Hc).
    rewrite Hc. fold len.
    assert (Hdiv : off / len * len = off).
    { pose proof (Z.div_mod off len Hne). lia. }
    rewrite Hdiv.
    destruct ((off <=? i) && (i <? off + len)) eqn:E; [|reflexivity].
    apply andb_true_iff in E as [E1 E2]. apply Z.leb_le in E1. apply Z.ltb_lt in E2. lia.
  - pose proof (frag_locate_none _ _ _ _ Hf Hsec). lia.
Qed.


Lemma le_bytes_S (n : nat) (v : Z) :
  le_bytes (S n) v = Z.land v 255 :: le_bytes n (Z.shiftr v 8).
Proof.
  unfold le_bytes. change (seq 0 (S n)) with (0%nat :: seq 1 n). cbn [map]. f_equal.
  rewrite <- seq_shift, map_map. apply map_ext. intros k.
  rewrite Z.shiftr_shiftr by lia. do 2 f_equal. lia.
Qed.

Lemma length_le_bytes (n : nat) (v : Z) : length (le_bytes n v) = n.
Proof. unfold le_bytes. rewrite length_map, length_seq. reflexivity. Qed.

Lemma from_le_le_bytes (n : nat) (v : Z) :
  from_le (le_bytes n v) = v mod 2 ^ (8 * Z.of_nat n).
Proof.
  revert v. induction n as [|n IH]; intros v.
  - simpl. rewrite Z.mod_1_r. reflexivity.
  - rewrite le_bytes_S. simpl from_le. rewrite IH.
    change 255 with (Z.ones 8). rewrite Z.land_ones, Z.shiftr_div_pow2 by lia.
    replace (8 * Z.of_nat (S n)) with (8 + 8 * Z.of_nat n) by lia.
    rewrite Z.pow_add_r by lia. rewrite Z.rem_mul_r by lia. reflexivity.
Qed.

Lemma from_le_le_bytes_id (n : nat) (v : Z) :
  0 <= v < 2 ^ (8 * Z.of_nat n) -> from_le (le_bytes n v) = v.
Proof. intros H. rewrite from_le_le_bytes. apply Z.mod_small, H. Qed.

Lemma from_le_le_bytes_4 (v : Z) : 0 <= v < 2 ^ 32 -> from_le (le_bytes 4 v) = v.
Proof. intros H. apply from_le_le_bytes_id. exact H. Qed.

Lemma write_to_length (e : Mbr.MbrEntry) :
  mbr_entry_fits e = true -> length (Mbr.write_to e) = 16%nat.
Proof.
  intros H. unfold mbr_entry_fits in H. split_andb.
  unfold Mbr.write_to. rewrite !length_app, !length_le_bytes. cbn [length]. lia.
Qed.

Lemma read_from_write_to (e : Mbr.MbrEntry) (rest : list Z) :
  mbr_entry_fits e = true -> Mbr.read_from (Mbr.write_to e ++ rest) = e.
Proof.
  intros H. destruct e as [st cf pt cl lba sec].
  unfold mbr_entry_fits in H.
  cbn [Mbr.status Mbr.chs_first Mbr.chs_last Mbr.partition_type Mbr.lba_first Mbr.sectors] in H.
  split_andb.
  destruct cf as [|a [|b [|c [|]]]]; cbn [length] in *; try discriminate.
  destruct cl as [|d [|e [|f [|]]]]; cbn [length] in *; try discriminate.
  transitivity (Mbr.mkMbrEntry st [a; b; c] pt [d; e; f]
                  (from_le (le_bytes 4 lba)) (from_le (le_bytes 4 sec))).
  { reflexivity. }
  rewrite !from_le_le_bytes_4 by lia. reflexivity.
Qed.

Lemma firstn_app_len {A} (l1 l2 : list A) (n : nat) :
  length l1 = n -> firstn n (l1 ++ l2) = l1.
Proof.
  intros <-. rewrite firstn_app, Nat.sub_diag, firstn_O, app_nil_r, firstn_all. reflexivity.
Qed.

Lemma skipn_app_len {A} (l1 l2 : list A) (n k : nat) :
  length l1 = n -> skipn (n + k) (l1 ++ l2) = skipn k l2.
Proof.
  intros <-. rewrite skipn_app, skipn_all2 by lia. simpl. f_equal. lia.
Qed.

Lemma flat_map_write_to_block (es : list Mbr.MbrEntry) (t : list Z) (i : nat) :
  forallb mbr_entry_fits es = true -> (i < length es)%nat ->
  firstn 16 (skipn (16 * i) (flat_map Mbr.write_to es ++ t))
  = Mbr.write_to (nth i es Mbr.MbrEntry_empty).
Proof.
  revert i. induction es as [|e es IH]; intros i Hf Hi; cbn [length] in Hi; [lia|].
  cbn [forallb] in Hf. apply andb_true_iff in Hf as [He Hf].
  cbn [flat_map]. rewrite <- app_assoc.
  destruct i as [|i].
  - rewrite Nat.mul_0_r, skipn_O. apply firstn_app_len, write_to_length, He.
  - replace (16 * S i)%nat with (16 + 16 * i)%nat by lia.
    rewrite skipn_app_len by (apply write_to_length, He). apply IH; [exact Hf|lia].
Qed.

Lemma flat_map_write_to_length (es : list Mbr.MbrEntry) :
  forallb mbr_entry_fits es = true -> length (flat_map Mbr.write_to es) = (16 * length es)%nat.
Proof.
  induction es as [|e es IH]; intros Hf; [reflexivity|].
  cbn [forallb] in Hf. apply andb_true_iff in Hf as [He Hf].
  cbn [flat_map length]. rewrite length_app, write_to_length, IH by assumption. lia.
Qed.

Lemma mbr_from_to_bytes (m : Mbr.RawMbr) (extra : list Z) :
  raw_mbr_fits m = true ->
  length (Mbr.to_bytes m) = 512%nat /\ Mbr.from_bytes (Mbr.to_bytes m ++ extra) = Some m.
Proof.
  intros H. destruct m as [B ps sig]. unfold raw_mbr_fits, Dir.is_u16 in H.
  cbn [Mbr.bootstrap Mbr.partitions Mbr.signature] in H. split_andb.
  assert (HF : length (flat_map Mbr.write_to ps) = 64%nat)
    by (rewrite flat_map_write_to_length by assumption; lia).
  assert (Hlen : length (Mbr.to_bytes (Mbr.mkRawMbr B ps sig)) = 512%nat).
  { unfold Mbr.to_bytes. cbn [Mbr.bootstrap Mbr.partitions Mbr.signature].
    rewrite !length_app, HF. cbn [length]. lia. }
  split; [exact Hlen|].
  unfold Mbr.from_bytes.
  replace (Z.of_nat (length (Mbr.to_bytes (Mbr.mkRawMbr B ps sig) ++ extra)) <? 512) with false
    by (symmetry; apply Z.ltb_ge; rewrite length_app, Hlen; lia).
  unfold Mbr.to_bytes. cbn [Mbr.bootstrap Mbr.partitions Mbr.signature].
  rewrite <- !app_assoc.
  assert (Hpart : forall i, (i < 4)%nat ->
    Mbr.read_from (firstn 16 (skipn (446 + 16 * i)
      (B ++ flat_map Mbr.write_to ps ++ [Z.land sig 255; Z.shiftr sig 8] ++ extra)))
    = nth i ps Mbr.MbrEntry_empty).
  { intros i Hi. rewrite skipn_app_len by assumption.
    rewrite flat_map_write_to_block by (try assumption; lia).
    rewrite <- (app_nil_r (Mbr.write_to _)). apply read_from_write_to.
    destruct ps as [|e0 [|e1 [|e2 [|e3 [|]]]]]; cbn [length] in *; try discriminate.
    cbn [forallb] in *. split_andb.
    destruct i as [|[|[|[|]]]]; cbn [nth]; try assumption; lia. }
  rewrite !Hpart by lia. rewrite firstn_app_len by assumption.
  replace 511%nat with (length B + (length (flat_map Mbr.write_to ps) + 1))%nat by lia.
  replace 510%nat with (length B + (length (flat_map Mbr.write_to ps) + 0))%nat by lia.
  rewrite !app_nth2_plus. cbn [nth app].
  destruct ps as [|e0 [|e1 [|e2 [|e3 [|]]]]]; cbn [length] in *; try discriminate.
  cbn [nth]. f_equal. f_equal.
  unfold u16_le. change 255 with (Z.ones 8).
  rewrite Z.land_ones, Z.shiftr_div_pow2 by lia.
  change (2 ^ 8) with 256 in *. pose proof (Z.div_mod sig 256 ltac:(lia)). lia.
Qed.

Lemma minimal_ge_ge (ss : SectorSize) (s r : Z) : minimal_ge ss s = Some r -> s <= r.
Proof.
  destruct ss as [|l|l|rs|rs]; unfold minimal_ge.
  - intros H; injection H as <-; lia.
  - pose proof (minimal_ge_allof_spec l s None ltac:(discriminate)) as H.
    destruct (minimal_ge_allof l s None); [|discriminate]. intros E; injection E as <-.
    apply H.
  - intros E; injection E as <-.
    apply (minimal_ge_anyexcept_spec (sort_unstable l) s (sort_unstable_sorted l)).
  - unfold minimal_ge_inranges. pose proof (minimal_ge_inranges_fold rs s None) as H.
    destruct (fold_left _ rs None); [|discriminate]. intros E; injection E as <-.
    destruct H as ([H|(rg & _ & _ & ->)] & _); [discriminate|lia].
  - intros H. apply (anyexceptranges_loop_spec _ _ _ _ H).
Qed.

(** MBR: after [GenericMbr::write], [read_from_disk] on the written disk
    with the same sector size finds the same partition table, when the
    table's fields fit their Rust types, its signature is 0xAA55 and the
    disk is readable. *)
Theorem mbr_write_read_back (m m' : Mbr.GenericMbr) :
  Mbr.write m = ROk m' ->
  raw_mbr_fits (Mbr.raw m) = true ->
  Mbr.signature (Mbr.raw m) = 0xAA55 ->
  read (md_permissions (dw_disk (Mbr.disk m))) = true ->
  Mbr.read_from_disk (dw_disk (Mbr.disk m')) (Some (Mbr.sector_size m))
  = ROk (Some (Mbr.mkGenericMbr (Mbr.raw m) (dw_new (dw_disk (Mbr.disk m')))
                                (Mbr.sector_size m))).
Proof.
  intros Hw Hfit Hsig Hr.
  unfold Mbr.write, Mbr.raw_write_to_disk in Hw.
  destruct (minimal_ge _ 512) as [ss0|] eqn:Hmin; [|discriminate].
  unfold dw_write_sector in Hw.
  destruct (_ || _); [discriminate|].
  destruct (md_write_sector _ _ _) as [d| |] eqn:Hmw; simpl in Hw; try discriminate.
  injection Hw as <-. cbn [Mbr.disk dw_disk].
  pose proof (minimal_ge_ge _ _ _ Hmin) as Hge.
  destruct (mbr_from_to_bytes (Mbr.raw m) (zeros (ss0 - 512)) Hfit) as [Hlen Hfb].
  set (buf := Mbr.to_bytes (Mbr.raw m) ++ zeros (ss0 - 512)) in *.
  assert (Hbl : Z.of_nat (length buf) = ss0).
  { unfold buf, zeros. rewrite length_app, Hlen, repeat_length. lia. }
  destruct (md_write_content _ _ _ _ Hmw) as (Hss & _ & _).
  pose proof (md_write_read_back _ _ _ _ Hmw Hr) as Hrb. rewrite Hbl in Hrb.
  unfold Mbr.read_from_disk, Mbr.choose_sector_size, Mbr.raw_read_from_disk. simpl bind.
  unfold md_disk_infos. cbn [di_sector_size]. rewrite Hss.
  unfold dw_disk_infos, md_disk_infos in Hmin. cbn [di_sector_size] in Hmin. rewrite Hmin.
  simpl bind. rewrite Hrb. simpl bind. rewrite Hfb. simpl bind. rewrite Hsig. reflexivity.
Qed.









Lemma cluster_parts_spec (count ss spc : Z) (start_of : Z -> Z) (clusters : list Z)
    (ps : list (Z * Z)) :
  cluster_parts count ss spc start_of clusters = FOk ps
  <-> Forall (fun c => 2 <= c < count) clusters /\ NoDup clusters
      /\ ps = map (fun c => (start_of c * ss, (start_of c + spc) * ss)) clusters.
Proof.
  revert ps. induction clusters as [|c rest IH]; intros ps; cbn [cluster_parts].
  - split.
    + intros H; injection H as <-. repeat constructor.
    + intros (_ & _ & ->). reflexivity.
  - destruct ((c >=? count) || (c <? 2)) eqn:E1.
    + split; [discriminate|]. intros (HF & _). inversion HF as [|? ? Hc]; subst.
      apply orb_true_iff in E1 as [E|E]; [rewrite Z.geb_leb, Z.leb_le in E|apply Z.ltb_lt in E]; lia.
    + apply orb_false_iff in E1 as [E1 E2]. rewrite Z.geb_leb, Z.leb_gt in E1. apply Z.ltb_ge in E2.
      destruct (existsb (Z.eqb c) rest) eqn:E3.
      * split; [discriminate|]. intros (_ & HN & _). inversion HN as [|? ? Hn]; subst.
        apply existsb_exists in E3 as (x & Hx & Ex). apply Z.eqb_eq in Ex; subst x. contradiction.
      * assert (Hn : ~ In c rest).
        { intros Hin. assert (existsb (Z.eqb c) rest = true) by (apply existsb_exists; exists c; split; [exact Hin|apply Z.eqb_refl]). congruence. }
        destruct (cluster_parts count ss spc start_of rest) as [ps'|e] eqn:Er.
        -- destruct (proj1 (IH ps') eq_refl) as (HF & HN & ->).
           split.
           ++ intros H; injection H as <-. split; [constructor; [lia|exact HF]|]. split; [constructor; assumption|reflexivity].
           ++ intros (_ & _ & ->). reflexivity.
        -- split; [discriminate|]. intros (HF & HN & _).
           inversion HF; inversion HN; subst.
           assert (Hc : FErr e = FOk (map (fun c => (start_of c * ss, (start_of c + spc) * ss)) rest))
             by (apply IH; split; [assumption|split; [assumption|reflexivity]]).
           discriminate.
Qed.

(** FAT12: [create_frangemented_subdisk] succeeds exactly when the
    clusters are distinct, all in [2, count_of_clusters), and
    [fragmented_subdisk] succeeds on the clusters' byte ranges, in order. *)
Theorem fat12_create_frangemented_subdisk_ok (f : FatVolume) (clusters : list Z)
    (perm : Permissions) (fs : FragmentedSubDisk) (w : DiskWrapper) :
  Fat12.create_frangemented_subdisk f clusters perm = ROk (FOk (fs, w))
  <-> Forall (fun c => 2 <= c < count_of_clusters (fv_bpb f)) clusters /\ NoDup clusters
      /\ fragmented_subdisk (fv_disk f)
           (map (fun c => (Fat12.cluster_start f c * fv_sector_size f,
                           (Fat12.cluster_start f c + sectors_per_cluster (fv_bpb f))
                           * fv_sector_size f)) clusters) perm = ROk (fs, w).
Proof.
  unfold Fat12.create_frangemented_subdisk.
  destruct (cluster_parts _ _ _ _ clusters) as [ps|e] eqn:E.
  - apply cluster_parts_spec in E as (HF & HN & ->).
    unfold map_fok. split.
    + intros H. repeat split; try assumption.
      destruct (fragmented_subdisk _ _ _); congruence.
    + intros (_ & _ & ->). reflexivity.
  - split; [discriminate|]. intros (HF & HN & _).
    assert (E' : cluster_parts (count_of_clusters (fv_bpb f)) (fv_sector_size f)
       (sectors_per_cluster (fv_bpb f)) (Fat12.cluster_start f) clusters = FOk (map (fun c => (Fat12.cluster_start f c * fv_sector_size f,
                           (Fat12.cluster_start f c + sectors_per_cluster (fv_bpb f))
                           * fv_sector_size f)) clusters))
      by (apply cluster_parts_spec; repeat split; assumption).
    congruence.
Qed.


Section GF.
Context {T : Type} `{FatFS T}.

Lemma chain_from_head (fs : T) (c : Z) (rest : list Z) :
  chain_from fs c rest -> get_fat_entry fs c 0 = ROk (FOk (chain_entry rest)).
Proof. destruct rest; simpl; [auto|intros []; auto]. Qed.

Lemma get_file_loop_chain (fs : T) (rest : list Z) :
  forall c cl fuel, chain_from fs c rest -> (length rest < fuel)%nat ->
  get_file_loop fuel fs cl (chain_entry rest) = Some (ROk (FOk (cl ++ rest))).
Proof.
  induction rest as [|n rest IH]; intros c cl fuel Hc Hf;
    (destruct fuel as [|fuel]; [cbn in Hf; lia|]).
  - cbn. rewrite app_nil_r. reflexivity.
  - destruct Hc as [_ Hn]. cbn [get_file_loop]. unfold get_file_body.
    cbn [chain_entry is_eof FatEntry_eqb]. rewrite (chain_from_head _ _ _ Hn).
    rewrite (IH n (cl ++ [n]) fuel Hn) by (cbn in Hf; lia).
    rewrite <- app_assoc. reflexivity.
Qed.
End GF.

(** FAT: when FAT copy 0 links [first] through [rest] to an EOF entry,
    [get_file(first)] ends and asks for the fragmented subdisk of the
    clusters [first :: rest]. *)
Theorem get_file_follows_chain {T : Type} `{FatFS T} (fs : T) (first : Z) (rest : list Z)
    (fuel : nat) (perm : Permissions) :
  chain_from fs first rest -> (length rest < fuel)%nat ->
  get_file fuel fs first perm = Some (create_frangemented_subdisk fs (first :: rest) perm).
Proof.
  intros Hc Hf. unfold get_file. rewrite (chain_from_head _ _ _ Hc).
  rewrite (get_file_loop_chain fs rest first [first] fuel Hc Hf). reflexivity.
Qed.


Lemma get_file_follows_chain_witness :
  chain_from (sample_volume chain_2_3_eof) 2 [3] /\ (length [3] < 3)%nat /\
  get_file 3 (sample_volume chain_2_3_eof) 2 read_write
  = Some (create_frangemented_subdisk (sample_volume chain_2_3_eof) [2; 3] read_write).
Proof.
  assert (Hc : chain_from (sample_volume chain_2_3_eof) 2 [3]) by (split; vm_compute; reflexivity).
  split; [exact Hc|]. split; [cbn; lia|].
  apply (get_file_follows_chain _ 2 [3] 3 read_write Hc). cbn; lia.
Defined.


Lemma le_bytes_2 (v : Z) : le_bytes 2 v = [Z.land v 255; Z.land (Z.shiftr v 8) 255].
Proof.
  rewrite !le_bytes_S. rewrite Z.shiftr_shiftr by lia. reflexivity.
Qed.

Lemma u16_le_le_bytes (v : Z) :
  Dir.is_u16 v = true -> u16_le (Z.land v 255) (Z.land (Z.shiftr v 8) 255) = v.
Proof.
  intros H. unfold Dir.is_u16 in H. split_andb.
  pose proof (from_le_le_bytes_id 2 v ltac:(cbn; lia)) as E.
  rewrite le_bytes_2 in E. cbn [from_le] in E. unfold u16_le. lia.
Qed.

Lemma le_bytes_u16_le (a b : Z) :
  Dir.is_byte a = true -> Dir.is_byte b = true -> le_bytes 2 (u16_le a b) = [a; b].
Proof.
  intros Ha Hb. unfold Dir.is_byte in Ha, Hb. split_andb.
  rewrite le_bytes_2. unfold u16_le. change 255 with (Z.ones 8).
  rewrite !Z.land_ones, Z.shiftr_div_pow2 by lia. change (2^8) with 256.
  rewrite (Z.mul_comm 256 b), Z.mod_add, Z.div_add by lia.
  rewrite (Z.div_small a), (Z.mod_small a), (Z.mod_small b) by lia. reflexivity.
Qed.

(** Directory entries: decoding the 32 bytes of an entry gives the entry
    back except [file_size], which comes back as 0 (the encoder leaves
    bytes 28..32 zero). *)
Theorem dir_entry_from_to_bytes (e : Dir.DirEntryRaw) :
  Dir.entry_fits e = true ->
  length (Dir.to_bytes e) = 32%nat
  /\ Dir.from_bytes (Dir.to_bytes e)
     = Dir.mkDirEntryRaw (Dir.short_name e) (Dir.attributes e) (Dir.reserved e)
         (Dir.creation_time_cents e) (Dir.creation_time e) (Dir.creation_date e)
         (Dir.last_access_date e) (Dir.first_cluster_high e) (Dir.write_time e)
         (Dir.write_date e) (Dir.first_cluster_low e) 0.
Proof.
  intros H. destruct e as [sn at_ rs cc ct cd la fh wt wd fl fsz].
  unfold Dir.entry_fits in H.
  cbn [Dir.short_name Dir.attributes Dir.reserved Dir.creation_time_cents Dir.creation_time
       Dir.creation_date Dir.last_access_date Dir.first_cluster_high Dir.write_time
       Dir.write_date Dir.first_cluster_low Dir.file_size] in *.
  split_andb.
  do 11 (destruct sn as [|? sn]; [cbn [length] in *; discriminate|]).
  destruct sn; [|cbn [length] in *; discriminate].
  unfold Dir.to_bytes, Dir.from_bytes.
  cbn [Dir.short_name Dir.attributes Dir.reserved Dir.creation_time_cents Dir.creation_time
       Dir.creation_date Dir.last_access_date Dir.first_cluster_high Dir.write_time
       Dir.write_date Dir.first_cluster_low Dir.file_size].
  rewrite !le_bytes_2. change (zeros 4) with [0; 0; 0; 0].
  split; [reflexivity|].
  cbn [app nth firstn from_le].
  rewrite !u16_le_le_bytes by assumption. reflexivity.
Qed.

(** Directory entries: encoding a decoded 32-byte buffer reproduces its
    first 28 bytes followed by four zero bytes. *)
Theorem dir_entry_to_from_bytes (buf : list Z) :
  length buf = 32%nat -> forallb Dir.is_byte buf = true ->
  Dir.to_bytes (Dir.from_bytes buf) = firstn 28 buf ++ zeros 4.
Proof.
  intros Hl Hb.
  do 32 (destruct buf as [|? buf]; [cbn [length] in Hl; discriminate|]).
  destruct buf; [|cbn [length] in Hl; discriminate].
  cbn [forallb] in Hb. split_andb.
  unfold Dir.to_bytes, Dir.from_bytes.
  cbn [Dir.short_name Dir.attributes Dir.reserved Dir.creation_time_cents Dir.creation_time
       Dir.creation_date Dir.last_access_date Dir.first_cluster_high Dir.write_time
       Dir.write_date Dir.first_cluster_low Dir.file_size nth firstn].
  rewrite !le_bytes_u16_le by assumption. reflexivity.
Qed.

(** Directory entries: an entry accepted by [is_valid_entry] (non-empty
    name) is not free, has attribute bits 6 and 7 clear, and its short
    name holds no upper-case letter and no space. *)
Theorem dir_valid_entry_name (e : Dir.DirEntryRaw) :
  Dir.is_valid_entry e = true -> Dir.short_name e <> [] ->
  Dir.is_free e = false
  /\ Z.land (Dir.attributes e) 0xC0 = 0
  /\ Forall (fun b => ~ (65 <= b <= 90) /\ b <> 32) (Dir.short_name e).
Proof.
  intros H Hne. unfold Dir.is_valid_entry in H.
  apply andb_true_iff in H as [H H3]. apply andb_true_iff in H as [H1 H2].
  apply Z.eqb_eq in H3.
  assert (Hall : forall b, In b (Dir.short_name e) ->
            32 <= b /\ (Dir.is_ascii_lowercase b || Dir.is_ascii_digit b
                        || zmem b Dir.special_chars) = true).
  { intros b Hb. rewrite forallb_forall in H1. specialize (H1 b Hb).
    apply negb_true_iff, orb_false_iff in H1 as [A B]. apply Z.ltb_ge in A.
    apply negb_false_iff in B. split; assumption. }
  assert (Hnot : forall b, In b (Dir.short_name e) -> ~ (65 <= b <= 90) /\ b <> 32 /\ b <> 0xE5 /\ b <> 0).
  { intros b Hb. destruct (Hall b Hb) as [Hge Hc].
    unfold Dir.is_ascii_lowercase, Dir.is_ascii_digit, zmem, Dir.special_chars in Hc.
    apply orb_true_iff in Hc as [Hc|Hc]; [apply orb_true_iff in Hc as [Hc|Hc]|].
    - apply andb_true_iff in Hc as [A B]. apply Z.leb_le in A, B. lia.
    - apply andb_true_iff in Hc as [A B]. apply Z.leb_le in A, B. lia.
    - cbn [existsb] in Hc. repeat (apply orb_true_iff in Hc as [Hc|Hc]; [apply Z.eqb_eq in Hc; lia|]).
      discriminate. }
  split; [|split; [exact H3|]].
  - destruct (Dir.short_name e) as [|b0 rest] eqn:Es; [contradiction|].
    unfold Dir.is_free. rewrite Es. cbn [nth].
    destruct (Hnot b0 (or_introl eq_refl)) as (_ & _ & A & B).
    apply orb_false_iff; split; apply Z.eqb_neq; assumption.
  - apply Forall_forall. intros b Hb. destruct (Hnot b Hb) as (A & B & _). split; assumption.
Qed.



Lemma lor_add (a b : Z) : Z.land a b = 0 -> Z.lor a b = a + b.
Proof. intros H. rewrite Z.add_nocarry_lxor, Z.lxor_lor by exact H. reflexivity. Qed.

Lemma land_15 (x : Z) : Z.land x 15 = x mod 16.
Proof. change 15 with (Z.ones 4). rewrite Z.land_ones by lia. reflexivity. Qed.

Lemma land_255 (x : Z) : Z.land x 255 = x mod 256.
Proof. change 255 with (Z.ones 8). rewrite Z.land_ones by lia. reflexivity. Qed.

Lemma fat12_even_bytes (v b1 : Z) : 0 <= v < 4096 ->
  Z.land (u16_le (Z.lor 0 (nth 0 (le_bytes 2 (Z.land v 0xFFF)) 0))
                 (Z.lor (Z.land b1 0xF0) (nth 1 (le_bytes 2 (Z.land v 0xFFF)) 0))) 0xFFF = v.
Proof.
  intros Hv. rewrite le_bytes_2. cbn [nth]. rewrite Z.lor_0_l.
  change 0xFFF with (Z.ones 12). rewrite !Z.land_ones by lia. change (2^12) with 4096.
  rewrite (Z.mod_small v) by lia. change 0xF0 with 240.
  rewrite !land_255, Z.shiftr_div_pow2 by lia. change (2^8) with 256.
  rewrite (Z.mod_small (v / 256)) by (split; [apply Z.div_pos|apply Z.div_lt_upper_bound]; lia).
  assert (Hh : Z.land (Z.land b1 240) (v / 256) = 0).
  { rewrite <- (Z.mod_small (v / 256) 16) by (split; [apply Z.div_pos|apply Z.div_lt_upper_bound]; lia).
    rewrite <- land_15, <- Z.land_assoc, (Z.land_comm (v / 256) 15), (Z.land_assoc 240 15). change (Z.land 240 15) with 0.
    rewrite Z.land_0_l, Z.land_0_r. reflexivity. }
  rewrite lor_add by exact Hh.
  assert (Hm : Z.land b1 240 mod 16 = 0).
  { rewrite <- land_15, <- Z.land_assoc. change (Z.land 240 15) with 0. apply Z.land_0_r. }
  pose proof (Z.div_mod (Z.land b1 240) 16 ltac:(lia)) as Hd. rewrite Hm, Z.add_0_r in Hd.
  pose proof (Z.div_mod v 256 ltac:(lia)) as Hv'.
  unfold u16_le.
  rewrite Hd.
  replace (v mod 256 + 256 * (16 * (Z.land b1 240 / 16) + v / 256))
    with (v + (Z.land b1 240 / 16) * 4096) by lia.
  rewrite Z.mod_add, Z.mod_small by lia. reflexivity.
Qed.

Lemma fat12_odd_bytes (v b0 : Z) : 0 <= v < 4096 ->
  Z.shiftr (u16_le (Z.lor (Z.land b0 0xF) (nth 0 (le_bytes 2 ((Z.shiftl v 4) mod 2^16)) 0))
                   (Z.lor 0 (nth 1 (le_bytes 2 ((Z.shiftl v 4) mod 2^16)) 0))) 4 = v.
Proof.
  intros Hv. rewrite le_bytes_2. cbn [nth]. rewrite Z.lor_0_l.
  rewrite Z.shiftl_mul_pow2 by lia. change (2^4) with 16. change (2^16) with 65536.
  rewrite (Z.mod_small (v * 16)) by lia. change 0xF with 15.
  rewrite !land_255, (Z.shiftr_div_pow2 (v * 16) 8) by lia. change (2^8) with 256.
  assert (Hhi : (v * 16 / 256) mod 256 = v / 16).
  { change 256 with (16 * 16) at 1. rewrite Z.div_mul_cancel_r by lia.
    apply Z.mod_small. split; [apply Z.div_pos|apply Z.div_lt_upper_bound]; lia. }
  assert (Hlo : (v * 16) mod 256 = (v mod 16) * 16).
  { change 256 with (16 * 16). apply Z.mul_mod_distr_r; lia. }
  rewrite Hhi, Hlo.
  assert (Hz : Z.land (Z.land b0 15) (v mod 16 * 16) = 0).
  { rewrite <- Z.land_assoc, (Z.land_comm 15), land_15, Z.mod_mul by lia. apply Z.land_0_r. }
  rewrite lor_add by exact Hz. rewrite land_15.
  unfold u16_le. rewrite Z.shiftr_div_pow2 by lia. change (2^4) with 16.
  pose proof (Z.div_mod v 16 ltac:(lia)) as Hv'.
  pose proof (Z.mod_pos_bound b0 16 ltac:(lia)) as Hb.
  replace (b0 mod 16 + v mod 16 * 16 + 256 * (v / 16)) with (b0 mod 16 + v * 16) by lia.
  rewrite Z.div_add, Z.div_small by lia. lia.
Qed.

Lemma length_list_set {A} (l : list A) (n : nat) (v : A) : length (list_set l n v) = length l.
Proof. revert n; induction l as [|x l IH]; intros [|n]; cbn; auto. Qed.

Lemma nth_list_set_eq {A} (l : list A) (n : nat) (v d : A) :
  (n < length l)%nat -> nth n (list_set l n v) d = v.
Proof.
  revert n; induction l as [|x l IH]; intros [|n] H; cbn in *; try lia; auto.
  apply IH. lia.
Qed.

Lemma nth_list_set_neq {A} (l : list A) (n k : nat) (v d : A) :
  k <> n -> nth k (list_set l n v) d = nth k l d.
Proof.
  revert n k; induction l as [|x l IH]; intros [|n] [|k] H; cbn; auto; try lia.
  all: apply IH; lia.
Qed.

Lemma vec_get_ok (l : list Z) (i : Z) :
  0 <= i < Z.of_nat (length l) -> vec_get l i = ROk (nth (Z.to_nat i) l 0).
Proof.
  intros H. unfold vec_get.
  replace ((0 <=? i) && (i <? Z.of_nat (length l))) with true
    by (symmetry; apply andb_true_iff; split; [apply Z.leb_le|apply Z.ltb_lt]; lia).
  reflexivity.
Qed.

Lemma vec_set_ok (l : list Z) (i v : Z) :
  0 <= i < Z.of_nat (length l) -> vec_set l i v = ROk (list_set l (Z.to_nat i) v).
Proof.
  intros H. unfold vec_set.
  replace ((0 <=? i) && (i <? Z.of_nat (length l))) with true
    by (symmetry; apply andb_true_iff; split; [apply Z.leb_le|apply Z.ltb_lt]; lia).
  reflexivity.
Qed.

Lemma dw_read_sector_ok (w : DiskWrapper) (s len : Z) (l : list Z) :
  dw_read_sector w s len = ROk l ->
  read (md_permissions (dw_disk w)) = true /\ length l = Z.to_nat len
  /\ is_w_borrowed w (s * len) (s * len + len) = false.
Proof.
  unfold dw_read_sector, md_read_sector.
  destruct (is_w_borrowed _ _ _) eqn:Eb; [discriminate|].
  destruct (read _) eqn:Er; [|discriminate]. cbn [negb].
  destruct (negb _); [discriminate|]. destruct (_ >? _); [discriminate|].
  intros H; injection H as <-. unfold md_slice. rewrite length_map, length_seq. auto.
Qed.

Lemma dw_write_read_back (w w' : DiskWrapper) (s : Z) (buf : list Z) :
  dw_write_sector w s buf = ROk w' ->
  read (md_permissions (dw_disk w)) = true ->
  dw_read_sector w' s (Z.of_nat (length buf)) = ROk buf.
Proof.
  unfold dw_write_sector, dw_read_sector. intros H Hr.
  destruct (is_w_borrowed w _ _) eqn:Eb; [discriminate|].
  destruct (is_r_borrowed w _ _); [discriminate|]. cbn [orb] in H.
  destruct (md_write_sector _ _ _) as [d| |] eqn:Ew; cbn [bind] in H; try discriminate.
  injection H as <-. unfold is_w_borrowed in *. cbn [w_borrows dw_disk]. rewrite Eb.
  apply (md_write_read_back _ _ _ _ Ew Hr).
Qed.

Lemma fat12_set_get_value (f f' : FatVolume) (index fat_index : Z) (value : FatEntry) (v : Z) :
  Fat12.set_fat_entry f index fat_index value = ROk (FOk tt, f') ->
  0 < fv_sector_size f ->
  (index + index / 2) mod fv_sector_size f <> fv_sector_size f - 1 ->
  to_fat12 value = FOk v -> 0 <= v < 2^12 ->
  Fat12.get_fat_entry f' index fat_index = ROk (from_fat12 v).
Proof.
  intros Hs Hss Hno Hv Hvr.
  destruct f as [b w ss]. cbn [fv_sector_size fv_bpb fv_disk] in *.
  unfold Fat12.set_fat_entry, Fat12.entry_address in Hs.
  cbn [fv_sector_size fv_bpb fv_disk] in Hs.
  destruct (_ || _) eqn:Eb; [discriminate|].
  cbv beta iota zeta in Hs.
  set (fo := index + index / 2) in *.
  set (o := fo mod ss) in *.
  set (sn := reserved_sectors_count b + fo / ss + fat_index * fat_size b) in *.
  assert (Ho : 0 <= o < ss - 1) by (pose proof (Z.mod_pos_bound fo ss Hss); lia).
  assert (Hfo : (fo =? ss - 1) = false).
  { apply Z.eqb_neq. intros E. apply Hno. unfold o. rewrite E, Z.mod_small by lia. reflexivity. }
  unfold Fat12.read_entry_sectors in Hs. cbn [fv_sector_size fv_disk] in Hs.
  destruct (dw_read_sector w sn ss) as [s0| |] eqn:Er0; cbn [bind] in Hs; try discriminate.
  rewrite Hfo in Hs. cbn [bind] in Hs. rewrite Hv in Hs.
  rewrite (Z.mod_small v (2^16)) in Hs by lia.
  destruct (dw_read_sector_ok _ _ _ _ Er0) as (Hrd & Hl0 & _).
  assert (HL : Z.of_nat (length (s0 ++ zeros ss)) = 2 * ss).
  { unfold zeros. rewrite length_app, repeat_length, Hl0. lia. }
  set (Sb := s0 ++ zeros ss) in *.
  destruct (Z.land index 1 =? 1) eqn:Ep; cbv iota in Hs;
  repeat (first [rewrite vec_get_ok in Hs by (rewrite ?length_list_set; lia)
                |rewrite vec_set_ok in Hs by (rewrite ?length_list_set; lia)];
          cbn [bind] in Hs).
  all: destruct (dw_write_sector w sn _) as [w'| |] eqn:Ew; cbn [bind] in Hs; try discriminate.
  all: injection Hs as <-.
  all: pose proof (dw_write_read_back _ _ _ _ Ew Hrd) as Hrb.
  all: rewrite length_firstn, !length_list_set in Hrb.
  all: replace (Z.of_nat (Init.Nat.min (Z.to_nat ss) (length Sb))) with ss in Hrb by lia.
  all: unfold Fat12.get_fat_entry, Fat12.entry_address, Fat12.read_entry_sectors.
  all: cbn [fv_sector_size fv_bpb fv_disk]; rewrite Eb; cbv beta iota zeta.
  all: fold fo; fold o; fold sn.
  all: rewrite Hrb, Hfo; cbn [bind].
  all: rewrite !vec_get_ok by (rewrite length_app, length_firstn, !length_list_set; unfold zeros; rewrite repeat_length; lia).
  all: cbn [bind]; rewrite Ep; cbv iota.
  all: rewrite !app_nth1 by (rewrite length_firstn, !length_list_set; lia).
  all: rewrite !nth_firstn.
  all: replace (Z.to_nat (o + 1)) with (S (Z.to_nat o)) in * by lia.
  all: replace (S (Z.to_nat o) <? Z.to_nat ss)%nat with true by (symmetry; apply Nat.ltb_lt; lia).
  all: replace (Z.to_nat o <? Z.to_nat ss)%nat with true by (symmetry; apply Nat.ltb_lt; lia).
  all: repeat first [rewrite nth_list_set_eq by (rewrite ?length_list_set; lia)
                    |rewrite nth_list_set_neq by lia].
  - rewrite fat12_odd_bytes by lia. reflexivity.
  - rewrite fat12_even_bytes by lia. reflexivity.
Qed.

(** FAT12: after a successful [set_fat_entry(index, fat_index, E)] with E
    Free, Bad or EOF, [get_fat_entry(index, fat_index)] returns E, when the
    entry does not straddle two sectors. *)
Theorem fat12_set_then_get (f f' : FatVolume) (index fat_index : Z) (value : FatEntry) :
  Fat12.set_fat_entry f index fat_index value = ROk (FOk tt, f') ->
  0 < fv_sector_size f ->
  (index + index / 2) mod fv_sector_size f <> fv_sector_size f - 1 ->
  value = Free \/ value = Bad \/ value = EOF ->
  Fat12.get_fat_entry f' index fat_index = ROk (FOk value).
Proof.
  intros Hs Hss Hno Hval.
  destruct Hval as [ -> | [ -> | -> ] ];
    (rewrite (fat12_set_get_value _ _ _ _ _ _ Hs Hss Hno eq_refl) by lia; reflexivity).
Qed.

(** MemDisk: after a successful [write_sector], [read_sector] of the same
    sector with the buffer's length returns the buffer, when the disk is
    readable. *)
Theorem memdisk_write_read_back (d d' : MemDisk) (sector : Z) (buf : list Z) :
  md_write_sector d sector buf = ROk d' ->
  read (md_permissions d) = true ->
  md_read_sector d' sector (Z.of_nat (length buf)) = ROk buf.
Proof. apply md_write_read_back. Qed.

(** MBR: [RawMbr::to_bytes] gives 512 bytes and [RawMbr::from_bytes] reads
    them (followed by anything) back into the same table, when the
    table's fields fit their Rust types. *)
Theorem mbr_bytes_round_trip (m : Mbr.RawMbr) (extra : list Z) :
  raw_mbr_fits m = true ->
  length (Mbr.to_bytes m) = 512%nat /\ Mbr.from_bytes (Mbr.to_bytes m ++ extra) = Some m.
Proof. apply mbr_from_to_bytes. Qed.

Lemma memdisk_write_read_back_witness : exists d',
  md_write_sector (blank_disk Any 16) 1 [1; 2; 3; 4] = ROk d'
  /\ md_read_sector d' 1 4 = ROk [1; 2; 3; 4].
Proof.
  eexists. split; [reflexivity|].
  apply (memdisk_write_read_back (blank_disk Any 16) _ 1 [1; 2; 3; 4]); reflexivity.
Defined.


Lemma subdisk_drop_restores_loans_witness : exists sd w',
  subdisk (mkDiskWrapper (blank_disk Any 16) [(0, 4)] []) 4 12 read_write = ROk (sd, w')
  /\ exists w'', subdisk_drop w' sd = ROk w''
    /\ dw_disk w'' = blank_disk Any 16
    /\ Permutation (r_borrows w'') [(0, 4)]
    /\ Permutation (w_borrows w'') [].
Proof.
  do 2 eexists. split; [reflexivity|].
  apply (subdisk_drop_restores_loans (mkDiskWrapper (blank_disk Any 16) [(0, 4)] []) _ _
           4 12 read_write).
  reflexivity.
Defined.

Lemma frag_drop_restores_loans_witness : exists fs w',
  fragmented_subdisk (mkDiskWrapper (blank_disk Any 32) [(0, 4)] [(4, 8)])
    [(8, 16); (24, 32)] read_write = ROk (fs, w')
  /\ exists w'', frag_drop w' fs = ROk w''
    /\ dw_disk w'' = blank_disk Any 32
    /\ Permutation (r_borrows w'') [(0, 4)]
    /\ Permutation (w_borrows w'') [(4, 8)].
Proof.
  do 2 eexists. split; [reflexivity|].
  apply (frag_drop_restores_loans (mkDiskWrapper (blank_disk Any 32) [(0, 4)] [(4, 8)]) _ _
           [(8, 16); (24, 32)] read_write).
  reflexivity.
Defined.

Lemma minimal_ge_inranges_least_witness :
  Forall (fun rg => fst rg < snd rg) [(512, 1024); (4096, 8193)]
  /\ (minimal_ge (InRanges [(512, 1024); (4096, 8193)]) 1024 = Some 4096 <->
      existsb (in_range 4096) [(512, 1024); (4096, 8193)] = true /\ 1024 <= 4096
      /\ forall x, existsb (in_range x) [(512, 1024); (4096, 8193)] = true ->
           1024 <= x -> 4096 <= x).
Proof.
  assert (HF : Forall (fun rg => fst rg < snd rg) [(512, 1024); (4096, 8193)])
    by (repeat constructor).
  split; [exact HF|].
  apply (minimal_ge_inranges_least [(512, 1024); (4096, 8193)] 1024 4096 HF).
Defined.


Lemma subdisk_write_read_back_witness : exists d',
  subdisk_write_sector (Some (dw_new (blank_disk Any 16))) (mkSubDisk 4 12 Any read_write) 1
    [1; 2; 3; 4] = ROk d'
  /\ subdisk_read_sector (Some (mkDiskWrapper d' [] [])) (mkSubDisk 4 12 Any read_write) 1 4
     = ROk [1; 2; 3; 4].
Proof.
  eexists. split; [reflexivity|].
  apply (subdisk_write_read_back (dw_new (blank_disk Any 16)) (mkSubDisk 4 12 Any read_write) 1
           [1; 2; 3; 4]); reflexivity.
Defined.

Lemma frag_write_stays_in_part_witness : exists d',
  frag_write_sector (Some (dw_new (blank_disk Any 32)))
    (mkFragmentedSubDisk [(8, 16); (24, 32)] 16 Any read_write) 2 [1; 2; 3; 4] = ROk d'
  /\ exists part, In part [(8, 16); (24, 32)] /\ forall i, i < fst part \/ snd part <= i ->
       md_content d' i = md_content (blank_disk Any 32) i.
Proof.
  eexists. split; [reflexivity|].
  apply (frag_write_stays_in_part (dw_new (blank_disk Any 32))
           (mkFragmentedSubDisk [(8, 16); (24, 32)] 16 Any read_write) 2
           [1; 2; 3; 4]); [reflexivity|lia|vm_compute; reflexivity].
Defined.

Lemma mbr_bytes_round_trip_witness :
  raw_mbr_fits (Mbr.raw s2_mbr) = true
  /\ length (Mbr.to_bytes (Mbr.raw s2_mbr)) = 512%nat
  /\ Mbr.from_bytes (Mbr.to_bytes (Mbr.raw s2_mbr) ++ [0; 0]) = Some (Mbr.raw s2_mbr).
Proof.
  assert (H : raw_mbr_fits (Mbr.raw s2_mbr) = true) by (vm_compute; reflexivity).
  split; [exact H|]. apply (mbr_bytes_round_trip (Mbr.raw s2_mbr) [0; 0] H).
Defined.

Lemma mbr_write_read_back_witness : exists m',
  Mbr.write s2_mbr = ROk m'
  /\ Mbr.read_from_disk (dw_disk (Mbr.disk m')) (Some 512)
     = ROk (Some (Mbr.mkGenericMbr (Mbr.raw s2_mbr) (dw_new (dw_disk (Mbr.disk m'))) 512)).
Proof.
  eexists. split; [reflexivity|].
  apply (mbr_write_read_back s2_mbr); [reflexivity|vm_compute; reflexivity|reflexivity|reflexivity].
Defined.




Lemma fat12_set_then_get_witness : exists f',
  Fat12.set_fat_entry (sample_volume chain_2_3_free) 3 0 EOF = ROk (FOk tt, f')
  /\ Fat12.get_fat_entry f' 3 0 = ROk (FOk EOF).
Proof.
  eexists. split; [reflexivity|].
  apply (fat12_set_then_get (sample_volume chain_2_3_free) _ 3 0 EOF);
    [reflexivity|cbn; lia|cbn; lia|right; right; reflexivity].
Defined.

Lemma dir_entry_from_to_bytes_witness :
  Dir.entry_fits sample_entry = true
  /\ length (Dir.to_bytes sample_entry) = 32%nat
  /\ Dir.from_bytes (Dir.to_bytes sample_entry)
     = Dir.mkDirEntryRaw (Dir.short_name sample_entry) (Dir.attributes sample_entry)
         (Dir.reserved sample_entry) (Dir.creation_time_cents sample_entry)
         (Dir.creation_time sample_entry) (Dir.creation_date sample_entry)
         (Dir.last_access_date sample_entry) (Dir.first_cluster_high sample_entry)
         (Dir.write_time sample_entry) (Dir.write_date sample_entry)
         (Dir.first_cluster_low sample_entry) 0.
Proof.
  assert (H : Dir.entry_fits sample_entry = true) by reflexivity.
  split; [exact H|]. apply (dir_entry_from_to_bytes sample_entry H).
Defined.

Lemma dir_entry_to_from_bytes_witness :
  length sample_entry_bytes = 32%nat /\ forallb Dir.is_byte sample_entry_bytes = true
  /\ Dir.to_bytes (Dir.from_bytes sample_entry_bytes) = firstn 28 sample_entry_bytes ++ zeros 4.
Proof.
  assert (H1 : length sample_entry_bytes = 32%nat) by reflexivity.
  assert (H2 : forallb Dir.is_byte sample_entry_bytes = true) by reflexivity.
  split; [exact H1|]. split; [exact H2|].
  apply (dir_entry_to_from_bytes sample_entry_bytes H1 H2).
Defined.

Lemma dir_valid_entry_name_witness :
  Dir.is_valid_entry sample_entry = true /\ Dir.short_name sample_entry <> []
  /\ Dir.is_free sample_entry = false
  /\ Z.land (Dir.attributes sample_entry) 0xC0 = 0
  /\ Forall (fun b => ~ (65 <= b <= 90) /\ b <> 32) (Dir.short_name sample_entry).
Proof.
  assert (H1 : Dir.is_valid_entry sample_entry = true) by reflexivity.
  assert (H2 : Dir.short_name sample_entry <> []) by discriminate.
  split; [exact H1|]. split; [exact H2|].
  apply (dir_valid_entry_name sample_entry H1 H2).
Defined.
